(** * Whisper relay: a shallow embedding of [src/inline/whisper.py]

    The development follows the source file top to bottom: Python string
    primitives, the addressing parser [_parse_whisper_query], the whisper
    cache with its expiry sweep, [create_whisper], [get_whispers_for_user],
    [get_whisper_by_id], the view cooldown, and the reveal handler
    [whisper_callback_handler].

    Modelling conventions.
    - A Python [str] is a [list ascii]; a character is read as the code
      point of the same number (0..255), so [lower] and [isspace] are the
      Unicode ones restricted to that range.
    - [time.time()] returns a rational number of seconds.  Every call of
      [time.time()] in the source is a separate argument of the embedded
      function, in the order in which the source performs the calls.
    - [whispers_cache] is an association list in insertion order (the
      iteration order of a Python dict); [view_cooldowns] is a finite map.
    - The database, the bot client and the uuid generator are external:
      they are fields of an environment record or plain arguments. *)

From Stdlib Require Import List Ascii String ZArith QArith Qround Lia Lqa Bool.
From Stdlib Require Import Permutation Sorted.
From stdpp Require Import gmap strings.
Import ListNotations.

#[local] Open Scope Z_scope.
#[local] Open Scope list_scope.

(** ** Python strings *)

Module PyStr.

Definition str := list ascii.

(** A literal: [lit "abc"] is the Python string ["abc"]. *)
Definition lit (s : string) : str := list_ascii_of_string s.

Definition code (c : ascii) : N := N_of_ascii c.

(** [str.isspace] on one character, for code points below 256. *)
Definition isspace (c : ascii) : bool :=
  let n := code c in
  ((9 <=? n) && (n <=? 13) || (28 <=? n) && (n <=? 32)
   || (n =? 133) || (n =? 160))%N.

(** [str.lower] on one character, for code points below 256: the letters
    A..Z and the upper-case letters U+00C0..U+00DE (without U+00D7). *)
Definition lower_char (c : ascii) : ascii :=
  let n := code c in
  if ((65 <=? n) && (n <=? 90)
      || (192 <=? n) && (n <=? 222) && negb (n =? 215))%N
  then ascii_of_N (n + 32) else c.

Definition lower (s : str) : str := map lower_char s.

(** Truthiness of a string: [if s] / [if not s]. *)
Definition truthy (s : str) : bool :=
  match s with [] => false | _ :: _ => true end.

Fixpoint dropwhile (p : ascii -> bool) (s : str) : str :=
  match s with
  | [] => []
  | c :: s' => if p c then dropwhile p s' else s
  end.

Definition lstrip_by (p : ascii -> bool) (s : str) : str := dropwhile p s.
Definition rstrip_by (p : ascii -> bool) (s : str) : str :=
  rev (dropwhile p (rev s)).

(** [s.strip()] *)
Definition strip (s : str) : str := rstrip_by isspace (lstrip_by isspace s).

Definition mem_char (c : ascii) (set : str) : bool :=
  existsb (Ascii.eqb c) set.

(** [s.rstrip(chars)] *)
Definition rstrip_chars (chars : str) (s : str) : str :=
  rstrip_by (fun c => mem_char c chars) s.

(** [s.startswith(p)] *)
Fixpoint startswith (s p : str) : bool :=
  match p, s with
  | [], _ => true
  | _ :: _, [] => false
  | a :: p', b :: s' => Ascii.eqb a b && startswith s' p'
  end.

(** [s.rfind(c)] for a one-character needle: the index of the last
    occurrence, or [-1]. *)
Fixpoint rfind_from (c : ascii) (s : str) (i last : Z) : Z :=
  match s with
  | [] => last
  | x :: s' => rfind_from c s' (i + 1) (if Ascii.eqb x c then i else last)
  end.

Definition rfind (c : ascii) (s : str) : Z := rfind_from c s 0 (-1).

(** [s[i:]] and [s[:i]] for an index [i >= 0]. *)
Definition slice_from (s : str) (i : Z) : str := skipn (Z.to_nat i) s.
Definition slice_to (s : str) (i : Z) : str := firstn (Z.to_nat i) s.

(** [len(s)] *)
Definition len (s : str) : Z := Z.of_nat (length s).

(** [s.split()]: the maximal runs of non-space characters.  [cur] holds
    the run being read, reversed. *)
Fixpoint split_go (s : str) (cur : str) : list str :=
  match s with
  | [] => match cur with [] => [] | _ => [rev cur] end
  | c :: s' =>
      if isspace c
      then match cur with
           | [] => split_go s' []
           | _ => rev cur :: split_go s' []
           end
      else split_go s' (c :: cur)
  end.

Definition split (s : str) : list str := split_go s [].

End PyStr.

Import PyStr.

Definition AT : ascii := "@"%char.
Definition PUNCT : str := lit ".,!?;:".

(** ** The addressing parser (lines 50-106) *)

(** Lines 56-77: strip the query and remove the bot mention.  The result is
    the source's [remaining], or [None] where the source returns [None]. *)
Definition bot_mention_remaining (query bot_username : str) : option str :=
  if negb (truthy query) then None else
  let query := strip query in
  let query_lower := lower query in
  let bot_username_lower := lower bot_username in
  let bot_mention_with_at := AT :: bot_username_lower in
  if startswith query_lower bot_mention_with_at then
    if startswith query (AT :: bot_username)
    then Some (strip (slice_from query (len (AT :: bot_username))))
    else Some (strip (slice_from query (len bot_mention_with_at)))
  else if startswith query_lower bot_username_lower then
    if startswith query bot_username
    then Some (strip (slice_from query (len bot_username)))
    else Some (strip (slice_from query (len bot_username_lower)))
  else None.

(** Lines 92-96: the first word of the recipient part, without trailing
    punctuation. *)
Definition recipient_of_part (recipient_part : str) : str :=
  match split recipient_part with
  | w :: _ => rstrip_chars PUNCT w
  | [] => rstrip_chars PUNCT recipient_part
  end.

(** Lines 79-106: split [remaining] at the last marker. *)
Definition split_at_last_marker (remaining : str) : option (str * str) :=
  if negb (truthy remaining) then None else
  let last_at_index := rfind AT remaining in
  if last_at_index =? -1 then None else
  let recipient_part := strip (slice_from remaining (last_at_index + 1)) in
  if negb (truthy recipient_part) then None else
  let recipient_username := recipient_of_part recipient_part in
  if negb (truthy recipient_username) then None else
  let message_text := strip (slice_to remaining last_at_index) in
  if negb (truthy message_text) then None else
  Some (message_text, recipient_username).

Definition _parse_whisper_query (query bot_username : str)
  : option (str * str) :=
  match bot_mention_remaining query bot_username with
  | None => None
  | Some remaining => split_at_last_marker remaining
  end.

(** ** Clock values and constants (lines 21-24) *)

Definition WHISPER_EXPIRY_HOURS : Z := 3.
Definition WHISPER_MAX_LENGTH : Z := 1000.
Definition WHISPER_ALERT_MAX_LENGTH : Z := 170.
Definition VIEW_COOLDOWN_SECONDS : Z := 5.

(** Python's [a < b] and [a <= b] on clock values. *)
Definition flt (a b : Q) : bool := negb (Qle_bool b a).
Definition fle (a b : Q) : bool := Qle_bool a b.

(** Python's [int(x)] on a float: truncation toward zero. *)
Definition py_int (x : Q) : Z := Z.quot (Qnum x) (Zpos (Qden x)).

(** Truthiness of an integer and of an optional integer ([None] and [0] are
    false). *)
Definition truthy_id (i : option Z) : bool :=
  match i with Some n => negb (n =? 0) | None => false end.

(** Truthiness of an optional string ([None] and the empty string are
    false): the string when it is true. *)
Definition truthy_str (s : option str) : option str :=
  match s with
  | Some (c :: r) => Some (c :: r)
  | _ => None
  end.

(** ** The whisper cache (lines 17, 27-36) *)

Record whisper := mkWhisper {
  sender_id : Z;
  recipient_id : option Z;
  recipient_username : str;
  message_text : str;
  created_at : Q;
  expires_at : Q
}.

(** [whispers_cache]: a dict from whisper id to whisper, in insertion
    order. *)
Definition cache := list (str * whisper).

Definition str_eqb (a b : str) : bool := bool_decide (a = b).

(** [whispers_cache.get(id)] *)
Fixpoint cache_get (id : str) (c : cache) : option whisper :=
  match c with
  | [] => None
  | (k, v) :: c' => if str_eqb k id then Some v else cache_get id c'
  end.

(** [whispers_cache[id] = w]: an existing key keeps its place. *)
Fixpoint cache_set (id : str) (w : whisper) (c : cache) : cache :=
  match c with
  | [] => [(id, w)]
  | (k, v) :: c' =>
      if str_eqb k id then (k, w) :: c' else (k, v) :: cache_set id w c'
  end.

(** [del whispers_cache[id]] *)
Fixpoint cache_del (id : str) (c : cache) : cache :=
  match c with
  | [] => []
  | (k, v) :: c' => if str_eqb k id then c' else (k, v) :: cache_del id c'
  end.

(** Lines 27-36: drop every entry with [expires_at < current_time]; the
    result is the number of dropped entries and the new cache. *)
Definition _cleanup_expired_whispers (current_time : Q) (c : cache)
  : Z * cache :=
  let expired_ids :=
    List.filter (fun kv => flt (expires_at (snd kv)) current_time) c in
  (Z.of_nat (length expired_ids),
   List.filter (fun kv => negb (flt (expires_at (snd kv)) current_time)) c).

(** ** External collaborators *)

(** A call that may raise. *)
Inductive result (A : Type) : Type :=
| Ok (a : A)
| Raise.
Arguments Ok {A} a.
Arguments Raise {A}.

(** A row of the user table, as far as this file reads it:
    [row['user_id']], [row.get('is_bot', False)], [row.get('username')],
    [row.get('first_name')]. *)
Record user_row := mkRow {
  user_id : Z;
  is_bot : bool;
  username : option str;
  first_name : option str
}.

(** The chat returned by [bot.get_chat]; [chat_is_bot] is [None] when the
    object has no attribute [is_bot]. *)
Record chat := mkChat {
  chat_id : Z;
  chat_is_bot : option bool
}.

(** The full message of the long reveal path (lines 598-601). *)
Inductive label := Unknown | Named (s : str).

Record full_message := mkFull {
  fm_for_sender : bool;
  fm_counterpart : label;
  fm_body : str
}.

Record bot_client := mkBot {
  get_chat : str -> result chat;
  send_message : Z -> full_message -> result unit
}.

Record env := mkEnv {
  db_get_user_by_username : str -> result (option user_row);
  db_get_user : Z -> result (option user_row);
  bot : option bot_client
}.

(** ** create_whisper (lines 109-166) *)

(** Lines 124-128: the loop over the username variants.  The result is the
    value of [user_data] after the loop. *)
Fixpoint lookup_variants (e : env) (variants : list str)
  : result (option user_row) :=
  match variants with
  | [] => Ok None
  | v :: vs =>
      match db_get_user_by_username e v with
      | Raise => Raise
      | Ok (Some row) => Ok (Some row)
      | Ok None => lookup_variants e vs
      end
  end.

(** The outcome of the [try] block, lines 121-150. *)
Inductive resolved :=
| Refuse                       (* return None *)
| Proceed (rid : option Z).    (* fall through with this recipient_id *)

(** Line 146. *)
Definition check_self (sender : Z) (rid : option Z) : resolved :=
  if truthy_id rid && bool_decide (rid = Some sender)
  then Refuse else Proceed rid.

Definition resolve_block (e : env) (sender : Z) (recipient_username : str)
  : resolved :=
  let recipient_username_lower := lower recipient_username in
  match lookup_variants e [recipient_username; recipient_username_lower] with
  | Raise => Proceed None
  | Ok (Some user_data) =>
      if is_bot user_data then Refuse
      else check_self sender (Some (user_id user_data))
  | Ok None =>
      match bot e with
      | Some b =>
          match get_chat b (AT :: recipient_username) with
          | Ok ch =>
              match chat_is_bot ch with
              | Some true => Refuse
              | _ => check_self sender (Some (chat_id ch))
              end
          | Raise => check_self sender None
          end
      | None => check_self sender None
      end
  end.

(** [uuid] is the value of [str(uuid.uuid4())], [current_time] the value of
    [time.time()] at line 154. *)
Definition create_whisper (e : env) (uuid : str) (current_time : Q)
  (sender : Z) (recipient_username message_text : str) (c : cache)
  : option str * cache :=
  if len message_text >? WHISPER_MAX_LENGTH then (None, c) else
  match resolve_block e sender recipient_username with
  | Refuse => (None, c)
  | Proceed rid =>
      let expires := (current_time + inject_Z (WHISPER_EXPIRY_HOURS * 3600))%Q in
      (Some uuid,
       cache_set uuid
         {| sender_id := sender;
            recipient_id := rid;
            recipient_username := lower recipient_username;
            message_text := message_text;
            created_at := current_time;
            expires_at := expires |} c)
  end.

(** ** get_whispers_for_user (lines 169-192) *)

(** [list.sort(key=created_at, reverse=True)]: a stable sort, largest key
    first. *)
Fixpoint insert_desc (x : str * whisper) (l : list (str * whisper))
  : list (str * whisper) :=
  match l with
  | [] => [x]
  | y :: l' =>
      if flt (created_at (snd x)) (created_at (snd y))
      then y :: insert_desc x l' else x :: y :: l'
  end.

Definition sort_desc (l : list (str * whisper)) : list (str * whisper) :=
  fold_right insert_desc [] l.

(** Lines 179-188: the test of the loop body on one entry. *)
Definition selected (current_time : Q) (uid : Z) (username_lower : option str)
  (w : whisper) : bool :=
  if fle (expires_at w) current_time then false
  else if bool_decide (recipient_id w = Some uid) then true
  else match recipient_id w, username_lower with
       | None, Some u => truthy u && str_eqb (recipient_username w) u
       | _, _ => false
       end.

(** [t_sweep] is the clock value read by the sweep of line 171,
    [current_time] the one of line 173. *)
Definition get_whispers_for_user (t_sweep current_time : Q) (uid : Z)
  (uname : option str) (c : cache) : list (str * whisper) * cache :=
  let c1 := snd (_cleanup_expired_whispers t_sweep c) in
  let username_lower :=
    match truthy_str uname with Some u => Some (lower u) | None => None end in
  let user_whispers :=
    List.filter (fun kv => selected current_time uid username_lower (snd kv)) c1 in
  (sort_desc user_whispers, c1).

(** ** get_whisper_by_id (lines 195-207) *)

(** [t_sweep] is the clock value read by the sweep of line 197, [t_check]
    the one read at line 203. *)
Definition get_whisper_by_id (t_sweep t_check : Q) (id : str) (c : cache)
  : option whisper * cache :=
  let c1 := snd (_cleanup_expired_whispers t_sweep c) in
  match cache_get id c1 with
  | None => (None, c1)
  | Some w =>
      if flt (expires_at w) t_check then (None, cache_del id c1)
      else (Some w, c1)
  end.

(** ** The view cooldown (lines 19, 39-47, 210-229) *)

(** Lines 39-47. *)
Definition _cleanup_old_cooldowns (current_time : Q) (cd : gmap Z Q)
  : gmap Z Q :=
  filter (fun kv : Z * Q =>
            flt (inject_Z (VIEW_COOLDOWN_SECONDS * 2)) (current_time - snd kv)%Q
            = false) cd.

(** [current_time] is the clock value of line 216, [t_sweep] the one read
    by [_cleanup_old_cooldowns] at line 227. *)
Definition check_view_cooldown (current_time t_sweep : Q) (uid : Z)
  (cd : gmap Z Q) : (bool * Z) * gmap Z Q :=
  let allow :=
    ((true, 0), _cleanup_old_cooldowns t_sweep (<[uid := current_time]> cd)) in
  match cd !! uid with
  | Some last_view =>
      let time_passed := (current_time - last_view)%Q in
      if flt time_passed (inject_Z VIEW_COOLDOWN_SECONDS)
      then ((false,
             py_int (inject_Z VIEW_COOLDOWN_SECONDS - time_passed)%Q), cd)
      else allow
  | None => allow
  end.

(** ** The reveal handler (lines 497-638) *)

(** The process state: the two module-level dicts. *)
Record state := mkState {
  whispers_cache : cache;
  view_cooldowns : gmap Z Q
}.

(** What [callback.answer] shows.  The literal texts of the source are
    kept apart by constructor; [NReveal] is [display_prefix + message_text]
    (lines 586-592). *)
Inductive notice :=
| NCooldown (remaining : Z)          (* line 512 *)
| NNotFound                          (* line 521 *)
| NNoAccess                          (* line 552 *)
| NReveal (for_sender : bool) (counterpart : label) (text : str)
| NSentToChat                        (* line 612 *)
| NSentToPrivate                     (* line 622 *)
| NDeliveryFailed                    (* line 627 *)
| NError.                            (* line 634 *)

(** The part of a [CallbackQuery] the handler uses, after the whisper id
    has been taken from [callback.data] (line 506): the requester's id and
    username, [callback.message.chat.id] ([None] without a message), and
    the outcome of [callback.answer(text, show_alert)], which may raise. *)
Record callback := mkCallbackQuery {
  cb_user_id : Z;
  cb_username : option str;
  cb_chat_id : option Z;
  cb_answer : notice -> bool -> result unit
}.

(** A callback every answer of which goes through. *)
Definition mkCallback (user_id : Z) (username : option str)
  (chat_id : option Z) : callback :=
  mkCallbackQuery user_id username chat_id (fun _ _ => Ok tt).

(** The calls the handler makes, in the order in which it makes them; a
    call is listed whether or not it raises. *)
Inductive effect :=
| Answer (n : notice) (show_alert : bool)
| SendMessage (target : Z) (m : full_message).

Definition raised {A : Type} (r : result A) : bool :=
  match r with Ok _ => false | Raise => true end.

(** One call of [callback.answer]: the call, and whether it raised. *)
Definition answer (cb : callback) (n : notice) (show_alert : bool)
  : list effect * bool :=
  ([Answer n show_alert], raised (cb_answer cb n show_alert)).

(** Lines 565-572 and 575-582: [@username], else the first name, else the
    default label. *)
Definition display_name (e : env) (uid : Z) : label :=
  match db_get_user e uid with
  | Ok (Some row) =>
      match truthy_str (username row) with
      | Some u => Named (AT :: u)
      | None =>
          match truthy_str (first_name row) with
          | Some f => Named f
          | None => Unknown
          end
      end
  | _ => Unknown
  end.

(** Lines 533-542: the requester's lower-cased username, from the callback
    or else from the database. *)
Definition requester_username (e : env) (cb : callback) : option str :=
  match truthy_str (cb_username cb) with
  | Some u => Some (lower u)
  | None =>
      match db_get_user e (cb_user_id cb) with
      | Ok (Some row) =>
          match truthy_str (username row) with
          | Some u => Some (lower u)
          | None => None
          end
      | _ => None
      end
  end.

(** Lines 526-548.  The result is [(is_recipient, is_sender)] and the
    whisper after the assignment of line 546. *)
Definition authorize (e : env) (cb : callback) (w : whisper)
  : (bool * bool) * whisper :=
  let uid := cb_user_id cb in
  let '(is_recipient, w') :=
    if bool_decide (recipient_id w = Some uid) then (true, w)
    else
      match recipient_id w with
      | None =>
          if truthy (recipient_username w) then
            match requester_username e cb with
            | Some user_username =>
                if truthy user_username
                   && str_eqb (recipient_username w) user_username
                then (true,
                      {| sender_id := sender_id w;
                         recipient_id := Some uid;
                         recipient_username := recipient_username w;
                         message_text := message_text w;
                         created_at := created_at w;
                         expires_at := expires_at w |})
                else (false, w)
            | None => (false, w)
            end
          else (false, w)
      | Some _ => (false, w)
      end in
  ((is_recipient, sender_id w =? uid), w').

(** Lines 557-589: the name shown with the text; the sender sees the
    recipient's name, the recipient the sender's. *)
Definition counterpart_label (e : env) (is_sender : bool) (w : whisper)
  : label :=
  let sender_username := display_name e (sender_id w) in
  let recipient_label :=
    if truthy_id (recipient_id w) then
      match recipient_id w with
      | Some rid => display_name e rid
      | None => Unknown
      end
    else if truthy (recipient_username w)
         then Named (AT :: recipient_username w)
         else Unknown in
  if is_sender then recipient_label else sender_username.

(** Lines 557-629: show an authorized whisper.  The result is the list of
    calls and whether an exception leaves the block.  In the long path the
    [try] of lines 602-624 covers the send and the acknowledgment; its
    [except] answers with the delivery notice. *)
Definition present (e : env) (b : bot_client) (cb : callback)
  (is_sender : bool) (w : whisper) : list effect * bool :=
  let counterpart := counterpart_label e is_sender w in
  if len (message_text w) <=? WHISPER_ALERT_MAX_LENGTH then
    answer cb (NReveal is_sender counterpart (message_text w)) true
  else
    let display_text := mkFull is_sender counterpart (message_text w) in
    let '(target, ack) :=
      if truthy_id (cb_chat_id cb) then
        match cb_chat_id cb with
        | Some chat_id => (chat_id, NSentToChat)
        | None => (cb_user_id cb, NSentToPrivate)
        end
      else (cb_user_id cb, NSentToPrivate) in
    let tried :=
      match send_message b target display_text with
      | Ok _ =>
          (SendMessage target display_text :: fst (answer cb ack false),
           snd (answer cb ack false))
      | Raise => ([SendMessage target display_text], true)
      end in
    if snd tried
    then (fst tried ++ fst (answer cb NDeliveryFailed true),
          snd (answer cb NDeliveryFailed true))
    else tried.

(** Lines 631-638: an exception that leaves the body is answered with the
    error notice; an exception of that answer is dropped. *)
Definition on_error (cb : callback) (r : list effect * bool) : list effect :=
  if snd r then fst r ++ fst (answer cb NError true) else fst r.

(** Lines 499-638.  [t1], [t2] are the clock values read by
    [check_view_cooldown], [t3], [t4] those read by [get_whisper_by_id].
    The assignment of line 546 writes through to the cache entry. *)
Definition whisper_callback_handler (e : env) (t1 t2 t3 t4 : Q)
  (whisper_id : str) (cb : callback) (st : state) : list effect * state :=
  match bot e with
  | None => ([], st)
  | Some b =>
      let uid := cb_user_id cb in
      let '((can_view, remaining), cds) :=
        check_view_cooldown t1 t2 uid (view_cooldowns st) in
      if negb can_view
      then (on_error cb (answer cb (NCooldown remaining) true),
            mkState (whispers_cache st) cds)
      else
        let '(found, c1) :=
          get_whisper_by_id t3 t4 whisper_id (whispers_cache st) in
        match found with
        | None =>
            (on_error cb (answer cb NNotFound true), mkState c1 cds)
        | Some w =>
            let '((is_recipient, is_sender), w') := authorize e cb w in
            let c2 := cache_set whisper_id w' c1 in
            if negb is_recipient && negb is_sender
            then (on_error cb (answer cb NNoAccess true), mkState c2 cds)
            else (on_error cb (present e b cb is_sender w'), mkState c2 cds)
        end
  end.

(** ** Operations on the process state *)

Inductive op :=
| OpCreate (uuid : str) (now : Q) (sender : Z) (recipient text : str)
| OpList (t1 t2 : Q) (uid : Z) (uname : option str)
| OpGet (t1 t2 : Q) (id : str)
| OpSweep (now : Q)
| OpReveal (t1 t2 t3 t4 : Q) (id : str) (cb : callback).

Definition step (e : env) (st : state) (o : op) : state :=
  match o with
  | OpCreate uuid now sender recipient text =>
      mkState (snd (create_whisper e uuid now sender recipient text
                      (whispers_cache st)))
              (view_cooldowns st)
  | OpList t1 t2 uid uname =>
      mkState (snd (get_whispers_for_user t1 t2 uid uname (whispers_cache st)))
              (view_cooldowns st)
  | OpGet t1 t2 id =>
      mkState (snd (get_whisper_by_id t1 t2 id (whispers_cache st)))
              (view_cooldowns st)
  | OpSweep now =>
      mkState (snd (_cleanup_expired_whispers now (whispers_cache st)))
              (view_cooldowns st)
  | OpReveal t1 t2 t3 t4 id cb =>
      snd (whisper_callback_handler e t1 t2 t3 t4 id cb st)
  end.

Definition run (e : env) (st : state) (ops : list op) : state :=
  fold_left (step e) ops st.

(** The ids an operation may write a new whisper under. *)
Definition creates (o : op) : option str :=
  match o with
  | OpCreate uuid _ _ _ _ => Some uuid
  | _ => None
  end.

(** ** Vocabulary of the statements about the parser *)

(** The self-addressing prefix forms of a bot handle: exact case or
    lower-cased, with or without the marker. *)
Definition prefix_forms (bot_username : str) : list str :=
  [AT :: bot_username; AT :: lower bot_username;
   bot_username; lower bot_username].

(** The query [P + " " + T + " @" + H]. *)
Definition addressed (P T H : str) : str :=
  P ++ lit " " ++ T ++ lit " @" ++ H.

(** A single word: no white space inside. *)
Definition one_word (s : str) : Prop :=
  forallb (fun c => negb (isspace c)) s = true.

(** ** Vocabulary of the statements about the store *)

(** The time to live in seconds. *)
Definition TTL : Q := inject_Z (WHISPER_EXPIRY_HOURS * 3600).

(** The process starts with two empty dicts. *)
Definition init_state : state := mkState [] ∅.

(** A dict has one entry per key. *)
Definition dict_ok (c : cache) : Prop := List.NoDup (map fst c).

(** The invariant of a stored whisper. *)
Definition whisper_ok (w : whisper) : Prop :=
  (expires_at w == created_at w + TTL)%Q
  /\ len (message_text w) <= WHISPER_MAX_LENGTH.

Definition store_ok (c : cache) : Prop :=
  Forall (fun kv => whisper_ok (snd kv)) c.

(** Two whispers that differ at most in [recipient_id]. *)
Definition same_but_recipient (w w' : whisper) : Prop :=
  sender_id w' = sender_id w
  /\ recipient_username w' = recipient_username w
  /\ message_text w' = message_text w
  /\ created_at w' = created_at w
  /\ expires_at w' = expires_at w.

(** An environment without any collaborator: the directory knows nobody
    and no bot client is registered. *)
Definition env_offline : env :=
  mkEnv (fun _ => Ok None) (fun _ => Ok None) None.

(** What the recipient handle resolves to at creation time: the directory
    is asked for the handle as typed and then lower-cased; when it knows
    neither, the platform is asked.  A lookup that raises, or a miss
    everywhere, leaves the handle unresolved. *)
Inductive resolution :=
| Unresolved
| ResolvedTo (id : Z) (bot_account : bool).

Definition resolve_recipient (e : env) (name : str) : resolution :=
  let of_row (row : user_row) := ResolvedTo (user_id row) (is_bot row) in
  let of_platform :=
    match bot e with
    | None => Unresolved
    | Some b =>
        match get_chat b (AT :: name) with
        | Raise => Unresolved
        | Ok ch =>
            ResolvedTo (chat_id ch)
              (match chat_is_bot ch with Some true => true | _ => false end)
        end
    end in
  match db_get_user_by_username e name with
  | Raise => Unresolved
  | Ok (Some row) => of_row row
  | Ok None =>
      match db_get_user_by_username e (lower name) with
      | Raise => Unresolved
      | Ok (Some row) => of_row row
      | Ok None => of_platform
      end
  end.

(** The whisper after the assignment [whisper['recipient_id'] = uid]. *)
Definition bind_recipient (uid : Z) (w : whisper) : whisper :=
  mkWhisper (sender_id w) (Some uid) (recipient_username w)
    (message_text w) (created_at w) (expires_at w).

(** ** Vocabulary of the statements about the reveal path *)

(** The handler refuses: its one call before the error handling is an
    alert with the cooldown notice, the not-found notice or the no-access
    notice. *)
Definition refusal (n : notice) : Prop :=
  n = NNotFound \/ n = NNoAccess \/ exists k, n = NCooldown k.

Definition refused (cb : callback) (effs : list effect) : Prop :=
  exists n, effs = on_error cb (answer cb n true) /\ refusal n.

(** Every answer of the callback goes through. *)
Definition answers_ok (cb : callback) : Prop :=
  forall n show_alert, cb_answer cb n show_alert = Ok tt.

(** The first call carries the text of the whisper: the alert of the short
    path or the message of the long path. *)
Definition shows (text : str) (effs : list effect) : Prop :=
  exists rest,
    (exists s cp, effs = Answer (NReveal s cp text) true :: rest)
    \/ (exists tg s cp, effs = SendMessage tg (mkFull s cp text) :: rest).

(** The requester presents the handle of the whisper: the lower-cased
    username of lines 533-542 is the whisper's recipient handle. *)
Definition handle_matches (e : env) (cb : callback) (w : whisper) : Prop :=
  recipient_username w <> []
  /\ requester_username e cb = Some (recipient_username w).

(** An operation that cannot bind the whisper [w] stored under [id]: it
    creates no whisper under [id], and when it is a reveal of [id], the
    requester does not present the handle. *)
Definition no_claim (e : env) (id : str) (w : whisper) (o : op) : Prop :=
  creates o <> Some id
  /\ match o with
     | OpReveal _ _ _ _ id' cb => id' = id -> ~ handle_matches e cb w
     | _ => True
     end.

(** The cooldown gate lets the requester through. *)
Definition gate_open (t1 t2 : Q) (cb : callback) (st : state) : Prop :=
  fst (fst (check_view_cooldown t1 t2 (cb_user_id cb) (view_cooldowns st)))
  = true.

(** Where the long reveal path sends the full text: the chat of the reveal
    action when there is one, else the requester. *)
Definition delivery_target (cb : callback) : Z :=
  match cb_chat_id cb with
  | Some chat_id => if chat_id =? 0 then cb_user_id cb else chat_id
  | None => cb_user_id cb
  end.

Definition delivery_ack (cb : callback) : notice :=
  match cb_chat_id cb with
  | Some chat_id => if chat_id =? 0 then NSentToPrivate else NSentToChat
  | None => NSentToPrivate
  end.

(** A bot client and an environment for the examples: the directory knows
    nobody, the platform knows no chat, every message is delivered. *)
Definition bot_plain : bot_client :=
  mkBot (fun _ => Raise) (fun _ _ => Ok tt).

Definition env_plain : env :=
  mkEnv (fun _ => Ok None) (fun _ => Ok None) (Some bot_plain).

(** Every entry stored under [id] is the whisper [w]. *)
Definition only_entry (id : str) (w : whisper) (c : cache) : Prop :=
  forall w1, In (id, w1) c -> w1 = w.

(** Every entry stored under [id] is bound to the recipient [A] and was
    sent by [S]. *)
Definition bound_to (id : str) (A S : Z) (c : cache) : Prop :=
  forall w, In (id, w) c -> recipient_id w = Some A /\ sender_id w = S.

(** ** Vocabulary of the statement about the listing *)

(** A whisper belongs to the listing of [uid] (with optional handle
    [uname]) at time [now]: it has not expired, and its recipient id is
    [uid], or it has no recipient id and its recipient handle is the
    lower-cased supplied handle.  An empty handle counts as not
    supplied. *)
Definition listed (now : Q) (uid : Z) (uname : option str) (w : whisper)
  : bool :=
  flt now (expires_at w)
  && (bool_decide (recipient_id w = Some uid)
      || match recipient_id w, uname with
         | None, Some h => truthy h && str_eqb (recipient_username w) (lower h)
         | _, _ => false
         end).

(** Most recent first. *)
Definition newer_first (a b : str * whisper) : Prop :=
  (created_at (snd b) <= created_at (snd a))%Q.

(** ** The callback data (lines 290, 466, 503-506) *)

Definition VIEW_PREFIX : str := lit "whisper_view_".

(** [s.replace(old, "")] for a non-empty [old]: the occurrences are found
    from left to right and do not overlap.  [skip] counts the characters
    of the current occurrence that are still to be dropped. *)
Fixpoint remove_all_go (old s : str) (skip : nat) : str :=
  match s with
  | [] => []
  | c :: s' =>
      match skip with
      | S k => remove_all_go old s' k
      | O =>
          if startswith s old
          then remove_all_go old s' (length old - 1)
          else c :: remove_all_go old s' 0
      end
  end.

Definition remove_all (old s : str) : str := remove_all_go old s 0.

(** Lines 290 and 466: the data of the view button. *)
Definition callback_data_of (whisper_id : str) : str :=
  VIEW_PREFIX ++ whisper_id.

(** Lines 503-506: the whisper id of a callback, or [None] where the
    handler returns at once. *)
Definition callback_whisper_id (data : option str) : option str :=
  match truthy_str data with
  | Some d =>
      if startswith d VIEW_PREFIX then Some (remove_all VIEW_PREFIX d)
      else None
  | None => None
  end.

(** Lines 497-638 from the raw callback data. *)
Definition whisper_callback_entry (e : env) (t1 t2 t3 t4 : Q)
  (data : option str) (cb : callback) (st : state) : list effect * state :=
  match bot e with
  | None => ([], st)
  | Some _ =>
      match callback_whisper_id data with
      | None => ([], st)
      | Some whisper_id =>
          whisper_callback_handler e t1 t2 t3 t4 whisper_id cb st
      end
  end.

(** ** The inline query handler (lines 232-494) *)

(** Lines 246-258: the scan of the whole query for the last marker. *)
Definition adhoc_scan (query : str) : option (str * str) :=
  if truthy query && mem_char AT query then
    let last_at_index := rfind AT query in
    if last_at_index >? 0 then
      let message_part := strip (slice_to query last_at_index) in
      let recipient_part := strip (slice_from query (last_at_index + 1)) in
      if truthy message_part && truthy recipient_part then
        let recipient_username := recipient_of_part recipient_part in
        if truthy recipient_username && truthy message_part
        then Some (message_part, recipient_username)
        else None
      else None
    else None
  else None.

(** Lines 246-261: the scan first, the parser when the scan finds
    nothing. *)
Definition inline_parse (query bot_username : str) : option (str * str) :=
  match adhoc_scan query with
  | Some parsed => Some parsed
  | None => _parse_whisper_query query bot_username
  end.

(** Lines 451-453. *)
Definition message_preview (text : str) : str :=
  let preview := slice_to text 50 in
  if len text >? 50 then preview ++ lit "..." else preview.

(** Python's [x % m] on floats, for a positive [m]. *)
Definition py_mod (x m : Q) : Q := (x - m * inject_Z (Qfloor (x / m)))%Q.

(** Lines 455-459: the hours and minutes left. *)
Definition time_left (expires current_time : Q) : Z * Z :=
  let time_remaining := (expires - current_time)%Q in
  (py_int (time_remaining / 3600)%Q,
   py_int (py_mod time_remaining 3600 / 60)%Q).

(** The part of an [InlineQuery] the handler reads. *)
Record inline_query := mkInline {
  iq_query : str;
  iq_user_id : Z;
  iq_username : option str
}.

(** The articles of an answer, one constructor per article the source
    builds; the fields are the values the source puts into the article
    (the literal texts around them, and the wording of the error message of
    lines 316-341, are left out). *)
Inductive article :=
| AWhisper (whisper_id : str) (sender : label) (recipient : str)
                                            (* lines 287-309 *)
| AError (recipient : str)                  (* lines 343-350 *)
| AHelpHint                                 (* lines 368-375 *)
| AParseError                               (* lines 385-392 *)
| AHelp                                     (* lines 400-407 *)
| AInbox (whisper_id : str) (sender : label) (preview : str)
         (hours minutes : Z).               (* lines 438-478 *)

Inductive inline_answer :=
| NoAnswer                         (* the handler returns without answer *)
| Results (results : list article).

(** Lines 437-478: the articles of the inbox; [t_item i] is the clock
    value read at line 456 for the [i]-th whisper. *)
Fixpoint inbox_items (e : env) (t_item : nat -> Q) (i : nat)
  (l : list (str * whisper)) : list article :=
  match l with
  | [] => []
  | (whisper_id, w) :: l' =>
      let '(hours, minutes) := time_left (expires_at w) (t_item i) in
      AInbox whisper_id (display_name e (sender_id w))
        (message_preview (message_text w)) hours minutes
      :: inbox_items e t_item (S i) l'
  end.

(** Lines 415-424: the requester's username, from the query or else from
    the database. *)
Definition inline_username (e : env) (iq : inline_query) : option str :=
  match truthy_str (iq_username iq) with
  | Some u => Some u
  | None =>
      match db_get_user e (iq_user_id iq) with
      | Ok (Some row) => truthy_str (username row)
      | _ => None
      end
  end.

(** Lines 357-365. *)
Definition bot_mention_variants (bot_username : str) : list str :=
  [lower bot_username; AT :: lower bot_username;
   bot_username; AT :: bot_username].

(** Lines 232-494.  [me] is the outcome of [bot.get_me()] (the bot's
    username), [uuid] and [t_create] are what [create_whisper] draws,
    [t_sweep] and [t_list] the clock values read by
    [get_whispers_for_user]. *)
Definition inline_query_handler (e : env) (me : result (option str))
  (uuid : str) (t_create t_sweep t_list : Q) (t_item : nat -> Q)
  (iq : inline_query) (c : cache) : inline_answer * cache :=
  match bot e with
  | None => (NoAnswer, c)
  | Some _ =>
  match me with
  | Raise => (Results [], c)
  | Ok name =>
  match truthy_str name with
  | None => (NoAnswer, c)
  | Some bot_username =>
      let query := strip (iq_query iq) in
      let user_id := iq_user_id iq in
      match inline_parse query bot_username with
      | Some (message_text, recipient_username) =>
          if len message_text >? WHISPER_MAX_LENGTH then (Results [], c)
          else
            match create_whisper e uuid t_create user_id
                    recipient_username message_text c with
            | (whisper_id, c') =>
                match truthy_str whisper_id with
                | Some whisper_id =>
                    (Results [AWhisper whisper_id (display_name e user_id)
                                recipient_username], c')
                | None => (Results [AError recipient_username], c')
                end
            end
      | None =>
          let query_lower := if truthy query then lower query else [] in
          let variants := bot_mention_variants bot_username in
          let starts_with_bot :=
            existsb (fun v => startswith query_lower (lower v)) variants in
          if negb (truthy query)
             || existsb (str_eqb query_lower) [[]; lit " "]
          then (Results [AHelpHint], c)
          else if existsb (str_eqb query_lower) (map lower variants) then
            let '(whispers, c1) :=
              get_whispers_for_user t_sweep t_list user_id
                (inline_username e iq) c in
            match whispers with
            | [] => (Results [], c1)
            | _ => (Results (inbox_items e t_item 0 (firstn 50 whispers)), c1)
            end
          else if starts_with_bot then (Results [AParseError], c)
          else (Results [AHelp], c)
      end
  end end end.

(** Lines 651-656: the periodic sweep. *)
Definition cleanup_expired_whispers_task (now : Q) (c : cache) : cache :=
  snd (_cleanup_expired_whispers now c).

(** ** Vocabulary of the further statements *)

(** [len(whispers_cache)] *)
Definition len_cache (c : cache) : Z := Z.of_nat (length c).

(** The whispers of [c'] are whispers of [c], up to the recipient id. *)
Definition only_rebinds (c c' : cache) : Prop :=
  forall id w', In (id, w') c' ->
    exists w, In (id, w) c /\ (w' = w \/ same_but_recipient w w').

(** * Facts about the string primitives *)

Module PyStrFacts.

Lemma dropwhile_app_keep (p : ascii -> bool) (s t : str) :
  dropwhile p s <> [] -> dropwhile p (s ++ t) = dropwhile p s ++ t.
Proof.
  induction s as [|c s IH]; simpl; [congruence|].
  destruct (p c); auto.
Qed.

Lemma dropwhile_head (p : ascii -> bool) (s : str) :
  match s with [] => True | c :: _ => p c = false end -> dropwhile p s = s.
Proof. destruct s as [|c s]; simpl; [auto|]. now intros ->. Qed.

Lemma dropwhile_head_inv (p : ascii -> bool) (s : str) :
  match dropwhile p s with [] => True | c :: _ => p c = false end.
Proof.
  induction s as [|c s IH]; simpl; [auto|].
  destruct (p c) eqn:E; simpl; auto.
Qed.

Lemma dropwhile_idem (p : ascii -> bool) (s : str) :
  dropwhile p (dropwhile p s) = dropwhile p s.
Proof. apply dropwhile_head, dropwhile_head_inv. Qed.

Lemma dropwhile_all (p : ascii -> bool) (s : str) :
  forallb p s = true <-> dropwhile p s = [].
Proof.
  induction s as [|c s IH]; simpl; [tauto|].
  destruct (p c); simpl; [exact IH|]. split; congruence.
Qed.

Lemma dropwhile_In (p : ascii -> bool) (x : ascii) (s : str) :
  In x (dropwhile p s) -> In x s.
Proof.
  induction s as [|c s IH]; simpl; [auto|].
  destruct (p c); simpl; auto.
Qed.

Lemma rstrip_by_In (p : ascii -> bool) (x : ascii) (s : str) :
  In x (rstrip_by p s) -> In x s.
Proof.
  unfold rstrip_by. rewrite <- in_rev. intros H%dropwhile_In.
  now apply in_rev.
Qed.

Lemma rstrip_by_app_keep (p : ascii -> bool) (s t : str) :
  rstrip_by p t <> [] -> rstrip_by p (s ++ t) = s ++ rstrip_by p t.
Proof.
  unfold rstrip_by. intros H. rewrite rev_app_distr, dropwhile_app_keep.
  - now rewrite rev_app_distr, rev_involutive.
  - intros E. apply H. now rewrite E.
Qed.

Lemma rstrip_by_snoc_drop (p : ascii -> bool) (s : str) (c : ascii) :
  p c = true -> rstrip_by p (s ++ [c]) = rstrip_by p s.
Proof.
  unfold rstrip_by. intros H. rewrite rev_app_distr. simpl. now rewrite H.
Qed.

Lemma rstrip_by_idem (p : ascii -> bool) (s : str) :
  rstrip_by p (rstrip_by p s) = rstrip_by p s.
Proof. unfold rstrip_by. now rewrite rev_involutive, dropwhile_idem. Qed.

(** A string without any character of the stripped class is left as it
    is. *)
Lemma rstrip_by_clean (p : ascii -> bool) (s : str) :
  forallb (fun c => negb (p c)) s = true -> rstrip_by p s = s.
Proof.
  intros H. unfold rstrip_by. rewrite dropwhile_head.
  - apply rev_involutive.
  - destruct (rev s) as [|c r] eqn:E; [auto|].
    rewrite forallb_forall in H. apply negb_true_iff, H, in_rev.
    rewrite E. now left.
Qed.

Lemma strip_lstrip (s : str) : strip (lstrip_by isspace s) = strip s.
Proof. unfold strip, lstrip_by. now rewrite dropwhile_idem. Qed.

Lemma strip_nonnil_lstrip (s : str) : strip s <> [] -> lstrip_by isspace s <> [].
Proof. unfold strip, rstrip_by. intros H E. apply H. now rewrite E. Qed.

Lemma strip_idem (s : str) : strip (strip s) = strip s.
Proof.
  unfold strip at 1. unfold lstrip_by. rewrite dropwhile_head.
  - apply rstrip_by_idem.
  - unfold strip, lstrip_by.
    pose proof (dropwhile_head_inv isspace s) as Hh.
    destruct (dropwhile isspace s) as [|c r] eqn:E.
    + reflexivity.
    + destruct (rstrip_by isspace (c :: r)) as [|c' r'] eqn:E'; [auto|].
      assert (Hne : rstrip_by isspace (c :: r) <> []) by congruence.
      destruct (rev r) as [|z zs] eqn:Er.
      * assert (r = []) as -> by (now apply (f_equal (@rev ascii)) in Er;
          rewrite rev_involutive in Er).
        unfold rstrip_by in E'. simpl in E'. rewrite Hh in E'. simpl in E'.
        congruence.
      * assert (Hr : r = rev zs ++ [z]).
        { apply (f_equal (@rev ascii)) in Er. now rewrite rev_involutive in Er. }
        revert E'. unfold rstrip_by. simpl. rewrite Er. simpl.
        destruct (isspace z) eqn:Ez.
        -- intros E'.
           assert (Hin : exists t, rev (dropwhile isspace (zs ++ [c])) = c :: t).
           { clear -Hh. induction zs as [|y ys IH]; simpl.
             - rewrite Hh. now exists [].
             - destruct (isspace y).
               + exact IH.
               + simpl. rewrite rev_app_distr. simpl. now eexists. }
           destruct Hin as [t Ht]. rewrite Ht in E'. congruence.
        -- simpl. rewrite rev_app_distr. simpl. congruence.
Qed.

Lemma startswith_nil (s : str) : startswith s [] = true.
Proof. now destruct s. Qed.

Lemma startswith_app (p s : str) : startswith (p ++ s) p = true.
Proof.
  induction p as [|a p IH]; simpl; [now destruct s|].
  now rewrite Ascii.eqb_refl.
Qed.

Lemma skipn_len_app (p s : str) : slice_from (p ++ s) (len p) = s.
Proof.
  unfold slice_from, len. rewrite Nat2Z.id.
  induction p as [|a p IH]; simpl; auto.
Qed.

Lemma firstn_len_app (p s : str) : slice_to (p ++ s) (len p) = p.
Proof.
  unfold slice_to, len. rewrite Nat2Z.id.
  induction p as [|a p IH]; simpl; [now destruct s|]. now rewrite IH.
Qed.

Lemma lower_app (s t : str) : lower (s ++ t) = lower s ++ lower t.
Proof. apply map_app. Qed.

Lemma len_lower (s : str) : len (lower s) = len s.
Proof. unfold len, lower. now rewrite length_map. Qed.

Lemma lower_char_idem (c : ascii) : lower_char (lower_char c) = lower_char c.
Proof. destruct c as [[] [] [] [] [] [] [] []]; reflexivity. Qed.

Lemma lower_idem (s : str) : lower (lower s) = lower s.
Proof.
  unfold lower. rewrite map_map. apply map_ext, lower_char_idem.
Qed.

Lemma isspace_lower_char (c : ascii) : isspace (lower_char c) = isspace c.
Proof. destruct c as [[] [] [] [] [] [] [] []]; reflexivity. Qed.

Lemma lower_char_AT (c : ascii) : lower_char c = AT -> c = AT.
Proof. destruct c as [[] [] [] [] [] [] [] []]; cbv; congruence. Qed.

Lemma truthy_lower (s : str) : truthy (lower s) = truthy s.
Proof. now destruct s. Qed.

Lemma rfind_from_absent (c : ascii) (s : str) (i last : Z) :
  ~ In c s -> rfind_from c s i last = last.
Proof.
  revert i last. induction s as [|x s IH]; simpl; intros i last H; [auto|].
  rewrite IH by tauto.
  destruct (Ascii.eqb_spec x c); [|auto]. subst. tauto.
Qed.

Lemma rfind_from_last (c : ascii) (a b : str) (i last : Z) :
  ~ In c b -> rfind_from c (a ++ c :: b) i last = i + len a.
Proof.
  intros Hb. revert i last. induction a as [|x a IH]; intros i last.
  - simpl. rewrite rfind_from_absent by auto.
    rewrite Ascii.eqb_refl. unfold len. simpl. lia.
  - simpl. rewrite IH. unfold len. simpl length. lia.
Qed.

Lemma rfind_absent (c : ascii) (s : str) : ~ In c s -> rfind c s = -1.
Proof. apply rfind_from_absent. Qed.

Lemma rfind_last (c : ascii) (a b : str) :
  ~ In c b -> rfind c (a ++ c :: b) = len a.
Proof. intros H. unfold rfind. now rewrite rfind_from_last. Qed.

(** A run of non-space characters is one word. *)
Lemma split_go_word (s cur : str) :
  forallb (fun c => negb (isspace c)) s = true ->
  split_go s cur =
  match rev cur ++ s with [] => [] | w => [w] end.
Proof.
  revert cur. induction s as [|c s IH]; simpl; intros cur H.
  - rewrite app_nil_r. destruct cur as [|x cur]; [reflexivity|].
    simpl. now destruct (rev cur ++ [x]) eqn:E; [destruct (rev cur)|].
  - apply andb_true_iff in H as [Hc Hs]. apply negb_true_iff in Hc.
    rewrite Hc, IH by auto. simpl. now rewrite <- app_assoc.
Qed.

Lemma split_word (s : str) :
  s <> [] -> forallb (fun c => negb (isspace c)) s = true -> split s = [s].
Proof.
  intros Hne H. unfold split. rewrite split_go_word by auto. simpl.
  now destruct s.
Qed.

End PyStrFacts.

(** * The addressing parser *)

(** The parser's second half on a string whose last marker is known. *)
Lemma split_at_marker (m h : str) :
  ~ In AT h ->
  split_at_last_marker (m ++ AT :: h) =
  if negb (truthy (strip h)) then None
  else if negb (truthy (recipient_of_part (strip h))) then None
  else if negb (truthy (strip m)) then None
  else Some (strip m, recipient_of_part (strip h)).
Proof.
  intros Hh. unfold split_at_last_marker.
  assert (Htr : truthy (m ++ AT :: h) = true) by now destruct m.
  rewrite Htr. simpl negb. cbv iota.
  rewrite PyStrFacts.rfind_last by exact Hh.
  assert (Hne : (len m =? -1) = false) by (apply Z.eqb_neq; unfold len; lia).
  rewrite Hne, PyStrFacts.firstn_len_app.
  assert (Hsk : slice_from (m ++ AT :: h) (len m + 1) = h).
  { replace (len m + 1) with (len (m ++ [AT]))
      by (unfold len; rewrite length_app; simpl; lia).
    replace (m ++ AT :: h) with ((m ++ [AT]) ++ h)
      by (now rewrite <- app_assoc).
    apply PyStrFacts.skipn_len_app. }
  now rewrite Hsk.
Qed.

Section Parser.

Import PyStrFacts.

Variables T H : str.
Hypothesis T_no_marker : ~ In AT T.
Hypothesis T_not_blank : strip T <> [].
Hypothesis H_nonempty : H <> [].
Hypothesis H_word : one_word H.
Hypothesis H_no_marker : ~ In AT H.
Hypothesis H_no_punct : rstrip_chars PUNCT H = H.

(** The remainder once the mention and the white space around it are
    gone. *)
Let body : str := lstrip_by isspace T ++ lit " @" ++ H.

Lemma rstrip_H : rstrip_by isspace H = H.
Proof. now apply rstrip_by_clean. Qed.

Lemma strip_H : strip H = H.
Proof.
  unfold strip, lstrip_by. rewrite dropwhile_head; [apply rstrip_H|].
  destruct H as [|c r]; [auto|]. unfold one_word in H_word. simpl in H_word.
  apply andb_true_iff in H_word as [Hc _]. now apply negb_true_iff.
Qed.

Lemma rstrip_keeps_H (s : str) : rstrip_by isspace (s ++ H) = s ++ H.
Proof.
  rewrite rstrip_by_app_keep; rewrite rstrip_H; auto.
Qed.

Lemma lstrip_T_nonnil : lstrip_by isspace T <> [].
Proof. now apply strip_nonnil_lstrip. Qed.

Lemma strip_space_body : strip (lit " " ++ T ++ lit " @" ++ H) = body.
Proof.
  unfold strip, lstrip_by. simpl dropwhile.
  rewrite dropwhile_app_keep by apply lstrip_T_nonnil.
  subst body. unfold lstrip_by.
  transitivity (rstrip_by isspace ((dropwhile isspace T ++ lit " @") ++ H)).
  - now rewrite <- app_assoc.
  - rewrite rstrip_keeps_H. now rewrite <- app_assoc.
Qed.

Lemma strip_body : strip body = body.
Proof.
  rewrite <- strip_space_body. apply strip_idem.
Qed.

Lemma split_body : split_at_last_marker body = Some (strip T, H).
Proof.
  pose proof lstrip_T_nonnil as HT.
  assert (Hb : body = (lstrip_by isspace T ++ [" "%char]) ++ AT :: H).
  { subst body. now rewrite <- app_assoc. }
  rewrite Hb, split_at_marker by auto. rewrite strip_H.
  assert (HtH : truthy H = true) by (destruct H; [congruence | reflexivity]).
  rewrite HtH. simpl negb. cbv iota.
  unfold recipient_of_part. rewrite split_word by auto.
  rewrite H_no_punct, HtH. simpl negb. cbv iota.
  assert (Hs : strip (lstrip_by isspace T ++ [" "%char]) = strip T).
  { unfold strip at 1. unfold lstrip_by.
    rewrite dropwhile_app_keep; rewrite dropwhile_idem; [|exact HT].
    now rewrite rstrip_by_snoc_drop. }
  rewrite Hs.
  destruct (strip T) eqn:E; [congruence | reflexivity].
Qed.

(** The mention with the marker, in any spelling that lower-cases to the
    bot's name. *)
Lemma remaining_with_marker (B P X : str) :
  lower P = lower B ->
  strip (AT :: P ++ X) = AT :: P ++ X ->
  bot_mention_remaining (AT :: P ++ X) B = Some (strip X).
Proof.
  intros HP HS. unfold bot_mention_remaining. simpl truthy. simpl negb.
  cbv iota. rewrite HS.
  assert (HL : lower (AT :: P ++ X) = (AT :: lower B) ++ lower X).
  { change (AT :: P ++ X) with ((AT :: P) ++ X). rewrite lower_app.
    simpl. now rewrite HP. }
  rewrite HL, startswith_app.
  assert (Hlen : len (AT :: B) = len (AT :: P)).
  { unfold len. simpl. rewrite <- (length_map lower_char B),
      <- (length_map lower_char P). fold (lower B) (lower P). now rewrite HP. }
  assert (Hlen' : len (AT :: lower B) = len (AT :: P)).
  { rewrite <- Hlen. unfold len. simpl. unfold lower. now rewrite length_map. }
  rewrite Hlen, Hlen'.
  change (AT :: P ++ X) with ((AT :: P) ++ X).
  rewrite skipn_len_app. now destruct (startswith _ (AT :: B)).
Qed.

Lemma startswith_shift (l r : str) (a : ascii) :
  a <> " "%char -> startswith (l ++ " "%char :: r) (a :: l) = false.
Proof.
  revert a. induction l as [|x l IH]; intros a Ha; simpl.
  - destruct (Ascii.eqb_spec a " "); [congruence | reflexivity].
  - destruct (Ascii.eqb_spec a x); [|reflexivity]. subst. simpl.
    now apply IH.
Qed.

(** The mention without the marker. *)
Lemma remaining_without_marker (B P X : str) :
  lower P = lower B ->
  strip (P ++ lit " " ++ X) = P ++ lit " " ++ X ->
  bot_mention_remaining (P ++ lit " " ++ X) B = Some (strip (lit " " ++ X)).
Proof.
  intros HP HS. unfold bot_mention_remaining.
  assert (Htr : truthy (P ++ lit " " ++ X) = true) by now destruct P.
  rewrite Htr. simpl negb. cbv iota. rewrite HS.
  assert (HL : lower (P ++ lit " " ++ X) = lower B ++ " "%char :: lower X).
  { rewrite lower_app, HP. reflexivity. }
  rewrite HL, startswith_shift by (cbv; congruence).
  rewrite startswith_app.
  assert (Hlen : len B = len P).
  { rewrite <- (len_lower B), <- (len_lower P). now rewrite HP. }
  rewrite len_lower, Hlen, skipn_len_app.
  now destruct (startswith _ B).
Qed.

Lemma strip_query (P : str) :
  match P with [] => False | c :: _ => isspace c = false end ->
  strip (P ++ lit " " ++ T ++ lit " @" ++ H) = P ++ lit " " ++ T ++ lit " @" ++ H.
Proof.
  intros HP. unfold strip, lstrip_by. rewrite dropwhile_head.
  - rewrite !app_assoc. apply rstrip_keeps_H.
  - destruct P; [contradiction | exact HP].
Qed.

(** The bare query: an empty mention. *)
Lemma remaining_bare :
  bot_mention_remaining (lit " " ++ T ++ lit " @" ++ H) [] = Some body.
Proof.
  unfold bot_mention_remaining. simpl truthy. simpl negb. cbv iota.
  rewrite strip_space_body. simpl lower at 2 3.
  assert (Hnot : startswith (lower body) [AT] = false).
  { subst body. pose proof lstrip_T_nonnil as HT.
    destruct (lstrip_by isspace T) as [|c r] eqn:E; [congruence|].
    unfold lower. cbn [map app startswith].
    destruct (Ascii.eqb_spec AT (lower_char c)) as [Heq|]; [|reflexivity].
    exfalso. apply T_no_marker. symmetry in Heq. apply lower_char_AT in Heq.
    subst c. apply (dropwhile_In isspace). unfold lstrip_by in E. rewrite E.
    now left. }
  rewrite Hnot, !startswith_nil.
  change (slice_from body (len [])) with body. now rewrite strip_body.
Qed.

Lemma parse_form (B P : str) :
  lstrip_by isspace B = B ->
  In P (prefix_forms B) ->
  _parse_whisper_query (addressed P T H) B = Some (strip T, H).
Proof.
  intros HB HP. unfold _parse_whisper_query, addressed.
  assert (Hrem : bot_mention_remaining (P ++ lit " " ++ T ++ lit " @" ++ H) B
                 = Some body).
  { assert (Hhead : forall b r, B = b :: r -> isspace b = false).
    { intros b r ->. unfold lstrip_by in HB. simpl in HB.
      destruct (isspace b) eqn:E; [|reflexivity].
      exfalso. assert (Hl : (length (dropwhile isspace r) <= length r)%nat).
      { clear. induction r as [|c r IH]; simpl; [lia|].
        destruct (isspace c); simpl; lia. }
      rewrite HB in Hl. simpl in Hl. lia. }
    destruct HP as [<-|[<-|[<-|[<-|[]]]]].
    - rewrite <- app_comm_cons, remaining_with_marker; auto.
      + now rewrite strip_space_body.
      + rewrite app_comm_cons. now apply strip_query.
    - rewrite <- app_comm_cons, remaining_with_marker.
      + now rewrite strip_space_body.
      + apply lower_idem.
      + rewrite app_comm_cons. now apply strip_query.
    - destruct B as [|b r] eqn:EB.
      + apply remaining_bare.
      + rewrite remaining_without_marker; auto.
        * now rewrite strip_space_body.
        * apply strip_query. now apply (Hhead b r).
    - destruct B as [|b r] eqn:EB.
      + apply remaining_bare.
      + rewrite remaining_without_marker.
        * now rewrite strip_space_body.
        * apply lower_idem.
        * apply strip_query. simpl. rewrite isspace_lower_char.
          now apply (Hhead b r). }
  rewrite Hrem. apply split_body.
Qed.

End Parser.

Example parse_mention_exact :
  _parse_whisper_query (lit "@MyBot hello there @Bob!") (lit "MyBot")
  = Some (lit "hello there", lit "Bob").
Proof. reflexivity. Qed.

Example parse_keeps_inner_marker :
  _parse_whisper_query (lit "mybot  a@b  @bob, see you ") (lit "MyBot")
  = Some (lit "a@b", lit "bob").
Proof. reflexivity. Qed.

Example parse_without_mention :
  _parse_whisper_query (lit "hello @bob") (lit "MyBot") = None.
Proof. reflexivity. Qed.

(** A marker inside the handle moves the split point. *)
Example parse_marker_in_handle :
  _parse_whisper_query (addressed (lit "@mybot") (lit "hi") (lit "a@b"))
    (lit "mybot")
  = Some (lit "hi @a", lit "b").
Proof. reflexivity. Qed.

(** A bot name that starts with white space is never recognised without
    the marker, because the query is stripped first. *)
Example parse_bot_leading_space :
  _parse_whisper_query (addressed (lit " b") (lit "hi") (lit "bob")) (lit " b")
  = None.
Proof. reflexivity. Qed.

Ltac no_marker :=
  let H := fresh in
  intros H; cbn in H;
  repeat (destruct H as [H|H]; [discriminate H|]); exact H.

(** C5, as stated, fails: the text [" x"] is non-empty and has no marker,
    the handle ["bob"] is one word without trailing punctuation, and the
    parser returns the trimmed text ["x"], not [" x"]. *)
Lemma C5_counterexample :
  let T := lit " x" in
  let H := lit "bob" in
  let B := lit "mybot" in
  let P := lit "@mybot" in
  T <> [] /\ ~ In AT T /\ H <> [] /\ one_word H /\
  rstrip_chars PUNCT H = H /\ In P (prefix_forms B) /\
  _parse_whisper_query (addressed P T H) B = Some (lit "x", H) /\
  _parse_whisper_query (addressed P T H) B <> Some (T, H).
Proof.
  cbv zeta. repeat split; try discriminate; try reflexivity.
  - no_marker.
  - now left.
Qed.

(** C5 (amended): for every text [T] without marker whose trimmed form is
    not empty, every non-empty one-word handle [H] without marker and
    without trailing punctuation, every bot handle [B] without leading
    white space and every self-addressing prefix form [P] of [B], the
    parser maps [P + " " + T + " @" + H] to the trimmed text and [H].  For a
    text without white space at its ends this is exactly [(T, H)]. *)
Theorem C5_parse_roundtrip (T H B P : str) :
  ~ In AT T ->
  strip T <> [] ->
  H <> [] ->
  one_word H ->
  ~ In AT H ->
  rstrip_chars PUNCT H = H ->
  lstrip_by isspace B = B ->
  In P (prefix_forms B) ->
  _parse_whisper_query (addressed P T H) B = Some (strip T, H).
Proof. intros. now apply parse_form. Qed.

Lemma C5_parse_roundtrip_witness :
  _parse_whisper_query
    (addressed (lit "mybot") (lit "hello there") (lit "Bob")) (lit "MyBot")
  = Some (strip (lit "hello there"), lit "Bob").
Proof.
  apply C5_parse_roundtrip.
  - no_marker.
  - discriminate.
  - discriminate.
  - reflexivity.
  - no_marker.
  - reflexivity.
  - reflexivity.
  - right; right; right; left; reflexivity.
Defined.

Lemma punct_not_space (c : ascii) :
  mem_char c PUNCT = true -> isspace c = false.
Proof. destruct c as [[] [] [] [] [] [] [] []]; cbv; congruence. Qed.

(** A part made of punctuation only yields an empty recipient. *)
Lemma recipient_of_punct (p : str) :
  rstrip_chars PUNCT p = [] -> recipient_of_part p = [].
Proof.
  intros Hp. unfold recipient_of_part.
  destruct p as [|c r] eqn:E; [reflexivity|]. rewrite <- E in *.
  assert (Hall : forallb (fun c => mem_char c PUNCT) p = true).
  { unfold rstrip_chars, rstrip_by in Hp.
    apply (f_equal (@rev ascii)) in Hp. rewrite rev_involutive in Hp.
    simpl in Hp. apply PyStrFacts.dropwhile_all in Hp.
    rewrite forallb_forall in *. intros x Hx. apply Hp. now apply in_rev in Hx. }
  rewrite PyStrFacts.split_word; [exact Hp | subst; discriminate |].
  unfold one_word. rewrite forallb_forall in *. intros x Hx.
  apply negb_true_iff, punct_not_space. auto.
Qed.

(** C6: the parser returns [None] whenever the remainder after the prefix
    handling has no marker, or what follows the last marker is empty once
    trimmed and stripped of trailing punctuation, or the text before the
    last marker is empty once trimmed. *)
Theorem C6_parse_none (query B remaining : str) :
  bot_mention_remaining query B = Some remaining ->
  (~ In AT remaining
   \/ rstrip_chars PUNCT
        (strip (slice_from remaining (rfind AT remaining + 1))) = []
   \/ strip (slice_to remaining (rfind AT remaining)) = []) ->
  _parse_whisper_query query B = None.
Proof.
  intros Hrem Hcases. unfold _parse_whisper_query. rewrite Hrem.
  unfold split_at_last_marker.
  destruct (truthy remaining); [|reflexivity]. simpl negb. cbv iota.
  destruct (rfind AT remaining =? -1) eqn:Ef; [reflexivity|].
  destruct Hcases as [Hno | [Hrec | Htxt]].
  - apply PyStrFacts.rfind_absent in Hno. rewrite Hno in Ef. discriminate.
  - apply recipient_of_punct in Hrec. rewrite Hrec.
    now destruct (truthy (strip _)).
  - rewrite Htxt. simpl.
    destruct (truthy (strip _)); [|reflexivity].
    now destruct (truthy (recipient_of_part _)).
Qed.

Lemma C6_parse_none_witness :
  bot_mention_remaining (lit "@mybot hello @ ?!") (lit "MyBot")
    = Some (lit "hello @ ?!") /\
  _parse_whisper_query (lit "@mybot hello @ ?!") (lit "MyBot") = None.
Proof.
  split; [reflexivity|].
  apply (C6_parse_none _ _ (lit "hello @ ?!")); [reflexivity|].
  right; left; reflexivity.
Defined.

(** * The whisper cache *)

Lemma flt_true (a b : Q) : flt a b = true <-> (a < b)%Q.
Proof.
  unfold flt. rewrite negb_true_iff. split.
  - intros H. apply Qnot_le_lt. intros Hle.
    apply Qle_bool_iff in Hle. congruence.
  - intros H. destruct (Qle_bool b a) eqn:E; [|reflexivity].
    apply Qle_bool_iff in E. exfalso. now apply (Qlt_not_le a b).
Qed.

Lemma flt_false (a b : Q) : flt a b = false <-> (b <= a)%Q.
Proof.
  unfold flt. rewrite negb_false_iff. apply Qle_bool_iff.
Qed.

Lemma fle_true (a b : Q) : fle a b = true <-> (a <= b)%Q.
Proof. apply Qle_bool_iff. Qed.

Lemma fle_false (a b : Q) : fle a b = false <-> (b < a)%Q.
Proof.
  unfold fle. split.
  - intros H. apply Qnot_le_lt. intros Hle.
    apply Qle_bool_iff in Hle. congruence.
  - intros H. destruct (Qle_bool a b) eqn:E; [|reflexivity].
    apply Qle_bool_iff in E. exfalso. now apply (Qlt_not_le b a).
Qed.

Lemma str_eqb_eq (a b : str) : str_eqb a b = true <-> a = b.
Proof. unfold str_eqb. apply bool_decide_eq_true. Qed.

Lemma str_eqb_refl (a : str) : str_eqb a a = true.
Proof. now apply str_eqb_eq. Qed.

Lemma str_eqb_neq (a b : str) : str_eqb a b = false <-> a <> b.
Proof. unfold str_eqb. apply bool_decide_eq_false. Qed.

Section CacheFacts.

Implicit Types (c : cache) (id k : str) (w v : whisper).

Lemma cache_get_In id c w : cache_get id c = Some w -> In (id, w) c.
Proof.
  induction c as [|[k v] c IH]; simpl; [discriminate|].
  destruct (str_eqb k id) eqn:E.
  - apply str_eqb_eq in E. intros [= ->]. subst. now left.
  - auto.
Qed.

Lemma cache_get_set_same id w c : cache_get id (cache_set id w c) = Some w.
Proof.
  induction c as [|[k v] c IH]; simpl.
  - now rewrite str_eqb_refl.
  - destruct (str_eqb k id) eqn:E; simpl; now rewrite E.
Qed.

Lemma cache_get_set_other id k w c :
  k <> id -> cache_get id (cache_set k w c) = cache_get id c.
Proof.
  intros Hk. induction c as [|[k' v] c IH]; simpl.
  - apply str_eqb_neq in Hk. now rewrite Hk.
  - destruct (str_eqb k' k) eqn:E; simpl.
    + apply str_eqb_eq in E. subst k'. apply str_eqb_neq in Hk. now rewrite Hk.
    + now rewrite IH.
Qed.

(** Writing back the value a key already has changes nothing. *)
Lemma cache_set_get id w c : cache_get id c = Some w -> cache_set id w c = c.
Proof.
  induction c as [|[k v] c IH]; simpl; [discriminate|].
  destruct (str_eqb k id) eqn:E.
  - now intros [= ->].
  - intros H. now rewrite IH.
Qed.

Lemma In_cache_set kv id w c :
  In kv (cache_set id w c) -> kv = (id, w) \/ In kv c.
Proof.
  induction c as [|[k v] c IH]; simpl.
  - intros [<-|[]]. now left.
  - destruct (str_eqb k id) eqn:E; simpl.
    + apply str_eqb_eq in E. subst k. intros [<-|H]; auto.
    + intros [<-|H]; auto. destruct (IH H); auto.
Qed.

Lemma In_cache_del kv id c : In kv (cache_del id c) -> In kv c.
Proof.
  induction c as [|[k v] c IH]; simpl; [auto|].
  destruct (str_eqb k id); simpl; intuition.
Qed.

Lemma Forall_cache_set (P : str * whisper -> Prop) id w c :
  P (id, w) -> Forall P c -> Forall P (cache_set id w c).
Proof.
  intros Hw Hc. apply List.Forall_forall. intros kv [->|H]%In_cache_set; [auto|].
  rewrite List.Forall_forall in Hc. auto.
Qed.

Lemma Forall_cache_del (P : str * whisper -> Prop) id c :
  Forall P c -> Forall P (cache_del id c).
Proof.
  rewrite !List.Forall_forall. intros Hc kv H%In_cache_del. auto.
Qed.

Lemma Forall_sweep (P : str * whisper -> Prop) now c :
  Forall P c -> Forall P (snd (_cleanup_expired_whispers now c)).
Proof.
  rewrite !List.Forall_forall. simpl. intros Hc kv [H _]%filter_In. auto.
Qed.

(** The first entry under a key survives a filter that accepts it. *)
Lemma cache_get_filter_keep (f : str * whisper -> bool) id w c :
  cache_get id c = Some w -> f (id, w) = true ->
  cache_get id (List.filter f c) = Some w.
Proof.
  induction c as [|[k v] c IH]; simpl; [discriminate|].
  destruct (str_eqb k id) eqn:E.
  - apply str_eqb_eq in E. subst k. intros [= ->] Hf. rewrite Hf. simpl.
    now rewrite str_eqb_refl.
  - intros Hg Hf. destruct (f (k, v)); simpl; [rewrite E|]; auto.
Qed.

Lemma cache_get_none id c :
  (forall w, ~ In (id, w) c) -> cache_get id c = None.
Proof.
  induction c as [|[k v] c IH]; simpl; [auto|]. intros H.
  destruct (str_eqb k id) eqn:E.
  - apply str_eqb_eq in E. subst k. exfalso. apply (H v). now left.
  - apply IH. intros w Hw. apply (H w). now right.
Qed.

(** In a dict the entry under a key is the only one. *)
Lemma dict_ok_unique id w w' c :
  dict_ok c -> In (id, w) c -> In (id, w') c -> w = w'.
Proof.
  unfold dict_ok. induction c as [|[k v] c IH]; simpl; [tauto|].
  intros Hnd [H1|H1] [H2|H2]; inversion Hnd; subst.
  - congruence.
  - injection H1 as -> ->. exfalso. apply H3.
    apply (in_map fst) in H2. exact H2.
  - injection H2 as -> ->. exfalso. apply H3.
    apply (in_map fst) in H1. exact H1.
  - auto.
Qed.

Lemma dict_ok_nil : dict_ok [].
Proof. constructor. Qed.

Lemma dict_ok_set id w c : dict_ok c -> dict_ok (cache_set id w c).
Proof.
  unfold dict_ok. induction c as [|[k v] c IH]; simpl; intros Hnd.
  - constructor; [simpl; tauto | constructor].
  - inversion Hnd; subst. destruct (str_eqb k id) eqn:E; simpl.
    + now constructor.
    + constructor; [|auto]. intros Hin. apply in_map_iff in Hin.
      destruct Hin as [[k' v'] [Hk Hin]]. simpl in Hk. subst k'.
      apply In_cache_set in Hin as [Heq|Hin].
      * injection Heq as -> _. rewrite str_eqb_refl in E. discriminate.
      * apply H1. apply (in_map fst) in Hin. exact Hin.
Qed.

Lemma dict_ok_filter (f : str * whisper -> bool) c :
  dict_ok c -> dict_ok (List.filter f c).
Proof.
  unfold dict_ok. induction c as [|[k v] c IH]; simpl; intros Hnd; [auto|].
  inversion Hnd; subst. destruct (f (k, v)); simpl; [|auto].
  constructor; [|auto]. intros Hin. apply H1.
  apply in_map_iff in Hin. destruct Hin as [kv [Hk [Hin _]%filter_In]].
  rewrite <- Hk. now apply in_map.
Qed.

Lemma dict_ok_del id c : dict_ok c -> dict_ok (cache_del id c).
Proof.
  unfold dict_ok. induction c as [|[k v] c IH]; simpl; intros Hnd; [auto|].
  inversion Hnd; subst. destruct (str_eqb k id); simpl; [auto|].
  constructor; [|auto]. intros Hin. apply H1.
  apply in_map_iff in Hin. destruct Hin as [kv [Hk Hin%In_cache_del]].
  rewrite <- Hk. now apply in_map.
Qed.

End CacheFacts.

(** * create_whisper and get_whisper_by_id *)

Lemma TTL_value : TTL = 10800%Q.
Proof. reflexivity. Qed.

Lemma create_success e uuid t0 sender rname text c r c' :
  create_whisper e uuid t0 sender rname text c = (Some r, c') ->
  r = uuid /\ len text <= WHISPER_MAX_LENGTH /\
  exists rid,
    resolve_block e sender rname = Proceed rid /\
    c' = cache_set uuid
           (mkWhisper sender rid (lower rname) text t0 (t0 + TTL)%Q) c.
Proof.
  unfold create_whisper.
  destruct (len text >? WHISPER_MAX_LENGTH) eqn:El; [discriminate|].
  destruct (resolve_block e sender rname) as [|rid]; [discriminate|].
  intros [= <- <-]. split; [reflexivity|]. split; [lia|].
  now exists rid.
Qed.

Lemma create_failure e uuid t0 sender rname text c :
  fst (create_whisper e uuid t0 sender rname text c) = None ->
  create_whisper e uuid t0 sender rname text c = (None, c).
Proof.
  unfold create_whisper.
  destruct (len text >? WHISPER_MAX_LENGTH); [reflexivity|].
  destruct (resolve_block e sender rname); [reflexivity | discriminate].
Qed.

Lemma get_live t1 t2 id c w :
  cache_get id c = Some w ->
  (t1 <= expires_at w)%Q -> (t2 <= expires_at w)%Q ->
  get_whisper_by_id t1 t2 id c
  = (Some w, snd (_cleanup_expired_whispers t1 c)).
Proof.
  intros Hg H1 H2. unfold get_whisper_by_id. simpl.
  rewrite (cache_get_filter_keep _ id w c Hg).
  - apply flt_false in H2. now rewrite H2.
  - simpl. apply flt_false in H1. now rewrite H1.
Qed.

Lemma get_expired t1 t2 id c w :
  dict_ok c -> cache_get id c = Some w ->
  (expires_at w < t1)%Q \/ (expires_at w < t2)%Q ->
  fst (get_whisper_by_id t1 t2 id c) = None.
Proof.
  intros Hd Hg Hlate. unfold get_whisper_by_id. simpl.
  destruct (flt (expires_at w) t1) eqn:E1.
  - rewrite cache_get_none; [reflexivity|].
    intros w' [Hin Hk]%filter_In. simpl in Hk.
    apply cache_get_In in Hg.
    rewrite (dict_ok_unique id w' w c Hd Hin Hg), E1 in Hk. discriminate.
  - rewrite (cache_get_filter_keep _ id w c Hg) by (simpl; now rewrite E1).
    destruct Hlate as [H|H]; apply flt_true in H; [congruence|].
    now rewrite H.
Qed.

(** What a successful read says about the cache it leaves. *)
Lemma get_found t1 t2 id c w :
  fst (get_whisper_by_id t1 t2 id c) = Some w ->
  cache_get id (snd (get_whisper_by_id t1 t2 id c)) = Some w
  /\ snd (get_whisper_by_id t1 t2 id c) = snd (_cleanup_expired_whispers t1 c)
  /\ In (id, w) c.
Proof.
  unfold get_whisper_by_id.
  destruct (cache_get id (snd (_cleanup_expired_whispers t1 c))) as [v|] eqn:Eg;
    [|discriminate].
  destruct (flt (expires_at v) t2); [discriminate|]. simpl.
  intros [= ->]. repeat split; [exact Eg|].
  apply cache_get_In in Eg. simpl in Eg. now apply filter_In in Eg.
Qed.

Lemma get_store_ok t1 t2 id c :
  store_ok c -> store_ok (snd (get_whisper_by_id t1 t2 id c)).
Proof.
  intros Hc. unfold get_whisper_by_id.
  pose proof (Forall_sweep _ t1 c Hc) as Hs.
  destruct (cache_get id _) as [v|]; [|exact Hs].
  destruct (flt _ _); [|exact Hs]. now apply Forall_cache_del.
Qed.

(** C1, as stated, fails at the boundary: a whisper created at time 0 is
    still returned by a read at time 10800 = 0 + 3 h. *)
Lemma C1_counterexample :
  let c := snd (create_whisper env_offline (lit "id-1") 0 7
                  (lit "bob") (lit "hi") []) in
  fst (create_whisper env_offline (lit "id-1") 0 7 (lit "bob") (lit "hi") [])
    = Some (lit "id-1")
  /\ fst (get_whisper_by_id 10800 10800 (lit "id-1") c) <> None.
Proof. vm_compute. split; [reflexivity | discriminate]. Qed.

(** C1 (amended): a whisper created at time [t0] is returned by every read
    whose clock values are at most [t0 + 3h] (the instant [t0 + 3h]
    included), and is absent for every read with a clock value greater
    than [t0 + 3h]. *)
Theorem C1_get_ttl (e : env) (uuid : str) (t0 : Q) (sender : Z)
  (rname text : str) (c c' : cache) (t1 t2 : Q) :
  dict_ok c ->
  create_whisper e uuid t0 sender rname text c = (Some uuid, c') ->
  ((t1 <= t0 + TTL)%Q -> (t2 <= t0 + TTL)%Q ->
   exists w, fst (get_whisper_by_id t1 t2 uuid c') = Some w
             /\ cache_get uuid c' = Some w
             /\ sender_id w = sender /\ message_text w = text
             /\ created_at w = t0)
  /\ ((t0 + TTL < t1)%Q \/ (t0 + TTL < t2)%Q ->
      fst (get_whisper_by_id t1 t2 uuid c') = None).
Proof.
  intros Hd Hc. apply create_success in Hc as (_ & _ & rid & _ & ->).
  set (w := mkWhisper sender rid (lower rname) text t0 (t0 + TTL)%Q).
  pose proof (cache_get_set_same uuid w c) as Hg. split.
  - intros H1 H2. exists w. rewrite (get_live t1 t2 uuid _ w Hg H1 H2).
    now repeat split.
  - intros Hlate. apply (get_expired t1 t2 uuid _ w); auto.
    now apply dict_ok_set.
Qed.

Lemma C1_get_ttl_witness :
  let c' := snd (create_whisper env_offline (lit "id-1") 0 7
                   (lit "bob") (lit "hi") []) in
  (exists w, fst (get_whisper_by_id 10800 10800 (lit "id-1") c') = Some w
             /\ message_text w = lit "hi")
  /\ fst (get_whisper_by_id 10800 (10801 # 1) (lit "id-1") c') = None.
Proof.
  cbv zeta. split.
  - destruct (C1_get_ttl env_offline (lit "id-1") 0 7 (lit "bob") (lit "hi")
                [] _ 10800 10800 dict_ok_nil eq_refl) as [Hlive _].
    destruct Hlive as (w & Hw & _ & _ & Ht & _);
      [vm_compute; discriminate | vm_compute; discriminate |].
    now exists w.
  - apply (C1_get_ttl env_offline (lit "id-1") 0 7 (lit "bob") (lit "hi")
             [] _ 10800 (10801 # 1) dict_ok_nil eq_refl).
    right. reflexivity.
Defined.

(** The [try] block of [create_whisper], in terms of the resolution. *)
Lemma resolve_block_spec e sender rname :
  resolve_block e sender rname =
  match resolve_recipient e rname with
  | Unresolved => Proceed None
  | ResolvedTo i true => Refuse
  | ResolvedTo i false => check_self sender (Some i)
  end.
Proof.
  unfold resolve_block, resolve_recipient. simpl lookup_variants.
  destruct (db_get_user_by_username e rname) as [[row|]|].
  - now destruct (is_bot row).
  - destruct (db_get_user_by_username e (lower rname)) as [[row|]|].
    + now destruct (is_bot row).
    + destruct (bot e) as [b|]; [|reflexivity].
      destruct (get_chat b (AT :: rname)) as [ch|]; [|reflexivity].
      now destruct (chat_is_bot ch) as [[]|].
    + reflexivity.
  - reflexivity.
Qed.

Lemma check_self_refuse sender i :
  sender <> 0 -> (check_self sender (Some i) = Refuse <-> i = sender).
Proof.
  intros Hs. unfold check_self. simpl.
  destruct (bool_decide (Some i = Some sender)) eqn:E.
  - apply bool_decide_eq_true in E. injection E as ->.
    apply Z.eqb_neq in Hs. rewrite Hs. simpl. tauto.
  - apply bool_decide_eq_false in E. rewrite andb_false_r.
    split; [discriminate | intros ->; congruence].
Qed.

Lemma check_self_proceed sender rid :
  check_self sender rid = Refuse \/ check_self sender rid = Proceed rid.
Proof. unfold check_self. destruct (_ && _); auto. Qed.

(** C2: [create_whisper] returns no id exactly when the text is longer
    than 1000, or the recipient handle resolves to the sender, or it
    resolves to a bot account (identities are non-zero platform ids).  A
    failed creation leaves the cache as it was; length 1001 always fails;
    length 1000 succeeds when neither resolution condition holds; an
    unresolved handle does not fail the creation, and the whisper is
    stored without recipient id. *)
Theorem C2_create_fails_exactly (e : env) (uuid : str) (t0 : Q) (sender : Z)
  (rname text : str) (c : cache) :
  sender <> 0 ->
  let r := create_whisper e uuid t0 sender rname text c in
  let to_sender := exists b, resolve_recipient e rname = ResolvedTo sender b in
  let to_bot := exists i, resolve_recipient e rname = ResolvedTo i true in
  (fst r = None <-> len text > 1000 \/ to_sender \/ to_bot)
  /\ (fst r = None -> snd r = c)
  /\ (len text = 1001 -> fst r = None)
  /\ (len text = 1000 -> ~ to_sender -> ~ to_bot -> fst r = Some uuid)
  /\ (len text <= 1000 -> resolve_recipient e rname = Unresolved ->
      r = (Some uuid,
           cache_set uuid
             (mkWhisper sender None (lower rname) text t0 (t0 + TTL)%Q) c)).
Proof.
  intros Hs r to_sender to_bot.
  assert (Hiff : fst r = None <-> len text > 1000 \/ to_sender \/ to_bot).
  { subst r to_sender to_bot. unfold create_whisper.
    rewrite resolve_block_spec. unfold WHISPER_MAX_LENGTH.
    destruct (len text >? 1000) eqn:El.
    - simpl. split; [intros _; left; lia | reflexivity].
    - assert (Hle : ~ len text > 1000) by lia.
      destruct (resolve_recipient e rname) as [|i [|]] eqn:Er.
      + simpl. split; [discriminate|].
        intros [H|[[b H]|[i H]]]; [lia | discriminate | discriminate].
      + simpl. split; [|reflexivity]. intros _. right. right. now exists i.
      + pose proof (check_self_refuse sender i Hs) as Hrf.
        destruct (check_self sender (Some i)) eqn:Ec; simpl.
        * split; [|reflexivity]. intros _. right. left. exists false.
          f_equal. now apply Hrf.
        * split; [discriminate|].
          intros [H|[[b H]|[j H]]]; [lia | | discriminate].
          injection H as -> _. destruct Hrf as [_ Hrf].
          now specialize (Hrf eq_refl). }
  split; [exact Hiff|]. split; [|split; [|split]].
  - intros Hn. subst r. now rewrite (create_failure _ _ _ _ _ _ _ Hn).
  - intros Hl. apply Hiff. left. lia.
  - intros Hl Hns Hnb.
    destruct (fst r) as [id|] eqn:Ef.
    + subst r. destruct (create_whisper e uuid t0 sender rname text c)
        as [o c'] eqn:Ec. simpl in Ef. subst o.
      now apply create_success in Ec as [-> _].
    + exfalso. destruct Hiff as [Hiff _].
      destruct (Hiff eq_refl) as [H|[H|H]]; [lia | auto | auto].
  - intros Hl Hu. subst r. unfold create_whisper.
    rewrite resolve_block_spec, Hu. unfold WHISPER_MAX_LENGTH.
    destruct (len text >? 1000) eqn:El; [lia | reflexivity].
Qed.

Lemma C2_create_fails_exactly_witness :
  let e := mkEnv (fun n => if str_eqb n (lit "me")
                           then Ok (Some (mkRow 7 false (Some (lit "me")) None))
                           else Ok None)
                 (fun _ => Ok None) None in
  7 <> 0
  /\ fst (create_whisper e (lit "id-1") 0 7 (lit "Me") (lit "hi") []) = None
  /\ fst (create_whisper e (lit "id-2") 0 8 (lit "Me") (lit "hi") [])
     = Some (lit "id-2").
Proof.
  intros e. split; [lia|]. split.
  - destruct (C2_create_fails_exactly e (lit "id-1") 0 7 (lit "Me") (lit "hi")
                [] ltac:(lia)) as [Hiff _].
    apply Hiff. right. left. exists false. reflexivity.
  - reflexivity.
Defined.

(** * The reveal handler *)

Lemma authorize_binds e cb w h :
  recipient_id w = None ->
  cb_username cb = Some h -> h <> [] ->
  lower h = recipient_username w ->
  authorize e cb w
  = ((true, sender_id w =? cb_user_id cb), bind_recipient (cb_user_id cb) w).
Proof.
  intros Hr Hu Hh Hl. unfold authorize, requester_username.
  rewrite Hr, Hu, <- Hl.
  destruct h as [|x h]; [congruence|]. simpl.
  rewrite str_eqb_refl. unfold bind_recipient. now rewrite <- Hl.
Qed.

(** Once a recipient is bound, nobody else is the recipient, and the
    whisper is not written again. *)
Lemma authorize_bound e cb w a :
  recipient_id w = Some a ->
  authorize e cb w
  = ((bool_decide (a = cb_user_id cb), sender_id w =? cb_user_id cb), w).
Proof.
  intros Hr. unfold authorize. rewrite Hr.
  destruct (bool_decide (Some a = Some (cb_user_id cb))) eqn:E.
  - apply bool_decide_eq_true in E. injection E as E.
    now rewrite bool_decide_eq_true_2.
  - apply bool_decide_eq_false in E.
    rewrite bool_decide_eq_false_2; [reflexivity | congruence].
Qed.

Lemma authorize_cases e cb w :
  snd (authorize e cb w) = w
  \/ (recipient_id w = None
      /\ snd (authorize e cb w) = bind_recipient (cb_user_id cb) w
      /\ fst (fst (authorize e cb w)) = true).
Proof.
  unfold authorize.
  destruct (bool_decide (recipient_id w = Some (cb_user_id cb)));
    [now left|].
  destruct (recipient_id w) eqn:Er; [now left|].
  destruct (truthy (recipient_username w)); [|now left].
  destruct (requester_username e cb) as [u|]; [|now left].
  destruct (truthy u && str_eqb (recipient_username w) u); [|now left].
  right. repeat split.
Qed.

Lemma authorize_is_sender e cb w :
  snd (fst (authorize e cb w)) = (sender_id w =? cb_user_id cb).
Proof.
  unfold authorize. now destruct (if bool_decide _ then _ else _).
Qed.

Lemma bind_same_but_recipient uid w : same_but_recipient w (bind_recipient uid w).
Proof. now repeat split. Qed.

Lemma authorize_same_but_recipient e cb w :
  same_but_recipient w (snd (authorize e cb w)).
Proof.
  destruct (authorize_cases e cb w) as [->|(_ & -> & _)];
    [now repeat split | apply bind_same_but_recipient].
Qed.

Lemma whisper_ok_same w w' :
  same_but_recipient w w' -> whisper_ok w -> whisper_ok w'.
Proof.
  intros (_ & _ & Hm & Hc & He) [H1 H2]. unfold whisper_ok.
  now rewrite Hm, Hc, He.
Qed.

(** * The view cooldown *)

Lemma py_int_floor (x : Q) : (0 <= x)%Q -> py_int x = Qfloor x.
Proof.
  destruct x as [n d]. unfold Qle, py_int, Qfloor. simpl. intros H.
  apply Z.quot_div_nonneg; lia.
Qed.

Lemma cooldown_window : inject_Z VIEW_COOLDOWN_SECONDS = 5%Q.
Proof. reflexivity. Qed.

Lemma cooldown_sweep_keeps (uid : Z) (cd : gmap Z Q) (now t_sweep : Q) :
  (t_sweep - now <= 10)%Q ->
  _cleanup_old_cooldowns t_sweep (<[uid := now]> cd) !! uid = Some now.
Proof.
  intros H. unfold _cleanup_old_cooldowns.
  apply map_lookup_filter_Some. split.
  - apply lookup_insert_eq.
  - simpl. apply flt_false. exact H.
Qed.

Lemma cooldown_allow_first (uid : Z) (cd : gmap Z Q) (now t_sweep : Q) :
  cd !! uid = None ->
  check_view_cooldown now t_sweep uid cd
  = ((true, 0), _cleanup_old_cooldowns t_sweep (<[uid := now]> cd)).
Proof. intros H. unfold check_view_cooldown. now rewrite H. Qed.

Lemma cooldown_allow_later (uid : Z) (cd : gmap Z Q) (now t_sweep last : Q) :
  cd !! uid = Some last -> (5 <= now - last)%Q ->
  check_view_cooldown now t_sweep uid cd
  = ((true, 0), _cleanup_old_cooldowns t_sweep (<[uid := now]> cd)).
Proof.
  intros H Hw. unfold check_view_cooldown. rewrite H.
  apply flt_false in Hw. rewrite cooldown_window. now rewrite Hw.
Qed.

Lemma cooldown_deny (uid : Z) (cd : gmap Z Q) (now t_sweep last : Q) :
  cd !! uid = Some last -> (now - last < 5)%Q ->
  check_view_cooldown now t_sweep uid cd
  = ((false, py_int (5 - (now - last))), cd).
Proof.
  intros H Hw. unfold check_view_cooldown. rewrite H.
  apply flt_true in Hw. rewrite cooldown_window. now rewrite Hw.
Qed.

(** The cooldown call as the code behaves: when the user's last allowed
    call was less than 5 s ago, the call is denied with the remaining
    window time rounded down to an integer, which lies in [0,5], and the
    stored timestamp is left as it was; on a first call, or once 5 s have
    elapsed, the call returns [(true, 0)] and stamps the current time,
    provided the sweep that ends the call reads the clock at most 10 s
    later. *)
Theorem cooldown_call (uid : Z) (cd : gmap Z Q) (now t_sweep : Q) :
  (forall last,
     cd !! uid = Some last -> (last <= now)%Q -> (now - last < 5)%Q ->
     exists r,
       check_view_cooldown now t_sweep uid cd = ((false, r), cd)
       /\ r = Qfloor (5 - (now - last)) /\ 0 <= r <= 5)
  /\ ((cd !! uid = None
       \/ exists last, cd !! uid = Some last /\ (5 <= now - last)%Q) ->
      (t_sweep - now <= 10)%Q ->
      fst (check_view_cooldown now t_sweep uid cd) = (true, 0)
      /\ snd (check_view_cooldown now t_sweep uid cd) !! uid = Some now).
Proof.
  split.
  - intros last Hl Hpos Hw. exists (py_int (5 - (now - last))).
    split; [now apply cooldown_deny|].
    assert (H0 : (0 <= 5 - (now - last))%Q) by lra.
    rewrite py_int_floor by exact H0. split; [reflexivity|].
    split.
    + exact (Qfloor_resp_le 0 _ H0).
    + apply (Qfloor_resp_le _ 5). lra.
  - intros Hadm Hs.
    assert (Heq : check_view_cooldown now t_sweep uid cd
                  = ((true, 0),
                     _cleanup_old_cooldowns t_sweep (<[uid := now]> cd))).
    { destruct Hadm as [Hn | (last & Hl & Hw)];
        [now apply cooldown_allow_first | now apply (cooldown_allow_later _ _ _ _ last)]. }
    rewrite Heq. split; [reflexivity|]. now apply cooldown_sweep_keeps.
Qed.

Lemma cooldown_call_witness :
  let cd : gmap Z Q := {[ 7 := 0%Q ]} in
  (exists r, check_view_cooldown (9 # 2) (9 # 2) 7 cd = ((false, r), cd)
             /\ r = 0)
  /\ fst (check_view_cooldown 5 5 7 cd) = (true, 0)
  /\ snd (check_view_cooldown 5 5 7 cd) !! 7 = Some 5%Q.
Proof.
  intros cd. split.
  - destruct (cooldown_call 7 cd (9 # 2) (9 # 2)) as [Hdeny _].
    destruct (Hdeny 0%Q) as (r & Hr & Hfl & _);
      [reflexivity | discriminate | reflexivity |].
    exists r. split; [exact Hr | exact Hfl].
  - apply (cooldown_call 7 cd 5 5).
    + right. exists 0%Q. split; [reflexivity | discriminate].
    + discriminate.
Defined.

(** * The handler, case by case *)

Lemma handler_with_bot e b t1 t2 t3 t4 id cb st :
  bot e = Some b ->
  whisper_callback_handler e t1 t2 t3 t4 id cb st =
  let chk := check_view_cooldown t1 t2 (cb_user_id cb) (view_cooldowns st) in
  if negb (fst (fst chk))
  then (on_error cb (answer cb (NCooldown (snd (fst chk))) true),
        mkState (whispers_cache st) (snd chk))
  else
    let g := get_whisper_by_id t3 t4 id (whispers_cache st) in
    match fst g with
    | None => (on_error cb (answer cb NNotFound true),
               mkState (snd g) (snd chk))
    | Some w =>
        let a := authorize e cb w in
        let c2 := cache_set id (snd a) (snd g) in
        if negb (fst (fst a)) && negb (snd (fst a))
        then (on_error cb (answer cb NNoAccess true), mkState c2 (snd chk))
        else (on_error cb (present e b cb (snd (fst a)) (snd a)),
              mkState c2 (snd chk))
    end.
Proof.
  intros Hb. unfold whisper_callback_handler. rewrite Hb.
  destruct (check_view_cooldown _ _ _ _) as [[cv rem] cds]. simpl.
  destruct cv; [|reflexivity]. simpl.
  destruct (get_whisper_by_id _ _ _ _) as [[w|] c1]; [|reflexivity]. simpl.
  now destruct (authorize e cb w) as [[isr iss] w2].
Qed.

(** With answers that go through, the error handling adds nothing. *)
Lemma on_error_answer_ok cb n show_alert :
  cb_answer cb n show_alert = Ok tt ->
  on_error cb (answer cb n show_alert) = [Answer n show_alert].
Proof. intros H. unfold on_error, answer. cbn [fst snd]. now rewrite H. Qed.

Lemma on_error_head cb r x rest :
  fst r = x :: rest -> exists rest', on_error cb r = x :: rest'.
Proof.
  intros H. unfold on_error. destruct (snd r); rewrite H; now eexists.
Qed.

Lemma handler_without_bot e t1 t2 t3 t4 id cb st :
  bot e = None ->
  whisper_callback_handler e t1 t2 t3 t4 id cb st = ([], st).
Proof. intros Hb. unfold whisper_callback_handler. now rewrite Hb. Qed.

(** The cache after a reveal: the cache after the read, with the entry of
    the whisper written back when the read found one. *)
Lemma handler_cache e t1 t2 t3 t4 id cb st :
  let c' := whispers_cache (snd (whisper_callback_handler e t1 t2 t3 t4 id cb st)) in
  let g := get_whisper_by_id t3 t4 id (whispers_cache st) in
  c' = whispers_cache st
  \/ c' = snd g
  \/ exists w, fst g = Some w /\ c' = cache_set id (snd (authorize e cb w)) (snd g).
Proof.
  cbv zeta. destruct (bot e) as [b|] eqn:Hb.
  - rewrite (handler_with_bot e b) by exact Hb. cbv zeta.
    destruct (negb _); [now left|].
    destruct (fst (get_whisper_by_id _ _ _ _)) as [w|] eqn:Eg; [|now right; left].
    right. right. exists w. split; [reflexivity|].
    now destruct (negb _ && negb _).
  - rewrite handler_without_bot by exact Hb. now left.
Qed.

Lemma run_invariant (P : state -> Prop) (e : env) :
  (forall st o, P st -> P (step e st o)) ->
  forall ops st, P st -> P (run e st ops).
Proof.
  intros Hstep ops. unfold run.
  induction ops as [|o ops IH]; simpl; intros st Hst; auto.
Qed.

(** * The store invariant *)

Lemma create_store_ok e uuid t0 sender rname text c :
  store_ok c ->
  store_ok (snd (create_whisper e uuid t0 sender rname text c)).
Proof.
  intros Hc.
  destruct (create_whisper e uuid t0 sender rname text c) as [[r|] c'] eqn:E.
  - apply create_success in E as (_ & Hl & rid & _ & ->). simpl.
    apply Forall_cache_set; [|exact Hc]. split; simpl; [reflexivity | exact Hl].
  - pose proof (create_failure e uuid t0 sender rname text c) as Hf.
    rewrite E in Hf. simpl in Hf. specialize (Hf eq_refl).
    injection Hf as ->. exact Hc.
Qed.

Lemma handler_store_ok e t1 t2 t3 t4 id cb st :
  store_ok (whispers_cache st) ->
  store_ok (whispers_cache
              (snd (whisper_callback_handler e t1 t2 t3 t4 id cb st))).
Proof.
  intros Hc.
  destruct (handler_cache e t1 t2 t3 t4 id cb st) as [-> | [-> | (w & Hg & ->)]].
  - exact Hc.
  - now apply get_store_ok.
  - apply Forall_cache_set; [|now apply get_store_ok]. simpl.
    apply (whisper_ok_same w); [apply authorize_same_but_recipient|].
    apply get_found in Hg as (_ & _ & Hin).
    unfold store_ok in Hc. rewrite List.Forall_forall in Hc.
    exact (Hc _ Hin).
Qed.

Lemma step_store_ok e st o :
  store_ok (whispers_cache st) -> store_ok (whispers_cache (step e st o)).
Proof.
  intros Hc. destruct o; simpl.
  - now apply create_store_ok.
  - now apply Forall_sweep.
  - now apply get_store_ok.
  - now apply Forall_sweep.
  - now apply handler_store_ok.
Qed.

(** C9: every whisper in the store has [expires_at = created_at + 3h] and
    a text of at most 1000 characters.  The property holds in every state
    the process reaches from the empty store, it is preserved by each
    operation (create, read with eviction, listing, sweep, reveal with the
    backfill), and the backfill changes no field but [recipient_id]. *)
Theorem C9_store_invariant (e : env) :
  (forall ops, store_ok (whispers_cache (run e init_state ops)))
  /\ (forall st o,
        store_ok (whispers_cache st) ->
        store_ok (whispers_cache (step e st o)))
  /\ (forall cb w, same_but_recipient w (snd (authorize e cb w))).
Proof.
  split; [|split].
  - intros ops.
    apply (run_invariant (fun st => store_ok (whispers_cache st))).
    + intros st o. apply step_store_ok.
    + constructor.
  - intros st o. apply step_store_ok.
  - intros cb w. apply authorize_same_but_recipient.
Qed.

Lemma C9_store_invariant_witness :
  store_ok (whispers_cache init_state)
  /\ store_ok
       (whispers_cache
          (step env_offline init_state
             (OpCreate (lit "id-1") 0 7 (lit "bob") (lit "hi")))).
Proof.
  assert (H0 : store_ok (whispers_cache init_state)) by constructor.
  split; [exact H0|].
  exact (proj1 (proj2 (C9_store_invariant env_offline)) init_state _ H0).
Defined.

(** * Lazy binding of the recipient *)

Lemma get_dict_ok (t1 t2 : Q) (id : str) (c : cache) :
  dict_ok c -> dict_ok (snd (get_whisper_by_id t1 t2 id c)).
Proof.
  intros Hd. unfold get_whisper_by_id.
  pose proof (dict_ok_filter
                (fun kv => negb (flt (expires_at (snd kv)) t1)) c Hd) as Hd1.
  change (List.filter _ c) with (snd (_cleanup_expired_whispers t1 c)) in Hd1.
  destruct (cache_get id _) as [w|]; [|exact Hd1].
  destruct (flt _ _); [|exact Hd1]. now apply dict_ok_del.
Qed.

Lemma step_dict_ok e st o :
  dict_ok (whispers_cache st) -> dict_ok (whispers_cache (step e st o)).
Proof.
  intros Hd. destruct o; simpl.
  - destruct (create_whisper e uuid now sender recipient text (whispers_cache st))
      as [[r|] c'] eqn:E.
    + apply create_success in E as (_ & _ & rid & _ & ->). simpl.
      now apply dict_ok_set.
    + pose proof (create_failure e uuid now sender recipient text
                    (whispers_cache st)) as Hf.
      rewrite E in Hf. specialize (Hf eq_refl). injection Hf as ->. exact Hd.
  - now apply dict_ok_filter.
  - now apply get_dict_ok.
  - now apply dict_ok_filter.
  - destruct (handler_cache e t1 t2 t3 t4 id cb st) as [-> | [-> | (w & _ & ->)]].
    + exact Hd.
    + now apply get_dict_ok.
    + now apply dict_ok_set, get_dict_ok.
Qed.

Lemma run_dict_ok e ops st :
  dict_ok (whispers_cache st) -> dict_ok (whispers_cache (run e st ops)).
Proof.
  apply (run_invariant (fun st => dict_ok (whispers_cache st))).
  intros st' o. apply step_dict_ok.
Qed.

Lemma authorize_match e cb w :
  recipient_id w = None -> handle_matches e cb w ->
  authorize e cb w
  = ((true, sender_id w =? cb_user_id cb), bind_recipient (cb_user_id cb) w).
Proof.
  intros Hr [Hne Hu]. unfold authorize. rewrite Hr, Hu.
  destruct (recipient_username w) as [|x r] eqn:E; [congruence|].
  cbn [truthy andb]. rewrite str_eqb_refl.
  unfold bind_recipient. now rewrite E.
Qed.

(** Without the handle nobody becomes the recipient of an unbound whisper,
    and the whisper is left as it is. *)
Lemma authorize_no_match e cb w :
  recipient_id w = None -> ~ handle_matches e cb w ->
  authorize e cb w = ((false, sender_id w =? cb_user_id cb), w).
Proof.
  intros Hr Hno. unfold authorize. rewrite Hr.
  destruct (truthy (recipient_username w)) eqn:Et; [|reflexivity].
  destruct (requester_username e cb) as [u|] eqn:Eu; [|reflexivity].
  destruct (truthy u && str_eqb (recipient_username w) u) eqn:Em;
    [|reflexivity].
  exfalso. apply Hno. apply andb_true_iff in Em as [_ Em].
  apply str_eqb_eq in Em. split; [|congruence].
  intros E. rewrite E in Et. discriminate.
Qed.

Lemma present_shows e b cb is_sender w :
  shows (message_text w) (fst (present e b cb is_sender w)).
Proof.
  unfold present, shows.
  destruct (len _ <=? _).
  - exists []. left. now do 2 eexists.
  - destruct (if truthy_id _ then _ else _) as [tg ack].
    destruct (send_message b tg _); cbn [fst snd answer];
      [destruct (raised _)|]; cbn [fst snd app];
      eexists; right; now do 3 eexists.
Qed.

Lemma on_error_shows cb r text :
  shows text (fst r) -> shows text (on_error cb r).
Proof.
  intros [rest [(s & cp & H)|(tg & s & cp & H)]];
    destruct (on_error_head cb r _ _ H) as [rest' ->];
    exists rest'; [left | right]; repeat eexists.
Qed.

Section Unbound.

Variable e : env.
Variable id : str.
Variable w : whisper.
Hypothesis w_unbound : recipient_id w = None.

#[local] Abbreviation unbound := (only_entry id w).

Lemma unbound_get t1 t2 k c :
  unbound c -> unbound (snd (get_whisper_by_id t1 t2 k c)).
Proof.
  intros Hu w1 Hin. apply Hu. revert Hin. unfold get_whisper_by_id.
  assert (Hsub : In (id, w1) (snd (_cleanup_expired_whispers t1 c)) ->
                 In (id, w1) c) by (intros [H _]%filter_In; exact H).
  destruct (cache_get k _) as [v|]; [|exact Hsub].
  destruct (flt _ _); [|exact Hsub]. intros H%In_cache_del. auto.
Qed.

Lemma unbound_handler t1 t2 t3 t4 k cb st :
  (k = id -> ~ handle_matches e cb w) ->
  unbound (whispers_cache st) ->
  unbound (whispers_cache (snd (whisper_callback_handler e t1 t2 t3 t4 k cb st))).
Proof.
  intros Hno Hu.
  destruct (handler_cache e t1 t2 t3 t4 k cb st) as [-> | [-> | (w0 & Hg & ->)]].
  - exact Hu.
  - now apply unbound_get.
  - pose proof (unbound_get t3 t4 k _ Hu) as Hu'.
    intros w1 [Heq|Hin]%In_cache_set; [|auto].
    injection Heq as -> ->.
    apply get_found in Hg as (_ & _ & Hin). apply Hu in Hin. subst w0.
    now rewrite (authorize_no_match e cb w w_unbound (Hno eq_refl)).
Qed.

Lemma unbound_step st o :
  no_claim e id w o ->
  unbound (whispers_cache st) -> unbound (whispers_cache (step e st o)).
Proof.
  intros [Hfresh Hno] Hu. destruct o; simpl.
  - destruct (create_whisper e uuid now sender recipient text (whispers_cache st))
      as [[r|] c'] eqn:E.
    + apply create_success in E as (_ & _ & rid & _ & ->). simpl.
      intros w1 [Heq|Hin]%In_cache_set; [|auto].
      simpl in Hfresh. congruence.
    + pose proof (create_failure e uuid now sender recipient text
                    (whispers_cache st)) as Hf.
      rewrite E in Hf. specialize (Hf eq_refl). injection Hf as ->. exact Hu.
  - intros w1 [Hin _]%filter_In. auto.
  - now apply unbound_get.
  - intros w1 [Hin _]%filter_In. auto.
  - now apply unbound_handler.
Qed.

Lemma unbound_run ops st :
  Forall (no_claim e id w) ops ->
  unbound (whispers_cache st) -> unbound (whispers_cache (run e st ops)).
Proof.
  unfold run. revert st.
  induction ops as [|o ops IH]; simpl; intros st Hf Hu; [exact Hu|].
  inversion Hf; subst. apply IH; [assumption|]. now apply unbound_step.
Qed.

(** A requester without the handle who is not the sender is refused. *)
Lemma unbound_refuses b t1 t2 t3 t4 cb st :
  bot e = Some b ->
  unbound (whispers_cache st) ->
  ~ handle_matches e cb w -> cb_user_id cb <> sender_id w ->
  refused cb (fst (whisper_callback_handler e t1 t2 t3 t4 id cb st)).
Proof.
  intros Hbot Hu Hno HS. rewrite (handler_with_bot e b) by exact Hbot.
  cbv zeta.
  destruct (negb (fst (fst (check_view_cooldown _ _ _ _)))).
  - eexists. split; [reflexivity|]. right. right. now eexists.
  - destruct (fst (get_whisper_by_id _ _ _ _)) as [w0|] eqn:Eg.
    + apply get_found in Eg as (_ & _ & Hin). apply Hu in Hin. subst w0.
      rewrite (authorize_no_match e cb w w_unbound Hno). cbn [fst snd].
      apply Z.eqb_neq in HS. rewrite Z.eqb_sym, HS. cbn [negb andb fst].
      eexists. split; [reflexivity|]. right. now left.
    + eexists. split; [reflexivity|]. now left.
Qed.

End Unbound.

Section Binding.

Variable e : env.
Variable id : str.
Variables A S : Z.

#[local] Abbreviation bound := (bound_to id A S).

Lemma bound_sweep now c : bound c -> bound (snd (_cleanup_expired_whispers now c)).
Proof. intros Hb w [Hin _]%filter_In. auto. Qed.

Lemma bound_get t1 t2 k c : bound c -> bound (snd (get_whisper_by_id t1 t2 k c)).
Proof.
  intros Hb. unfold get_whisper_by_id.
  pose proof (bound_sweep t1 c Hb) as Hs.
  destruct (cache_get k _) as [v|]; [|exact Hs].
  destruct (flt _ _); [|exact Hs].
  intros w Hin%In_cache_del. auto.
Qed.

Lemma bound_set_other k v c : k <> id -> bound c -> bound (cache_set k v c).
Proof.
  intros Hk Hb w [Heq|Hin]%In_cache_set; [congruence | auto].
Qed.

Lemma bound_set_same v c :
  recipient_id v = Some A -> sender_id v = S -> bound c ->
  bound (cache_set id v c).
Proof.
  intros Hr Hs Hb w [Heq|Hin]%In_cache_set; [|auto].
  injection Heq as ->. auto.
Qed.

Lemma bound_handler t1 t2 t3 t4 k cb st :
  bound (whispers_cache st) ->
  bound (whispers_cache (snd (whisper_callback_handler e t1 t2 t3 t4 k cb st))).
Proof.
  intros Hb.
  destruct (handler_cache e t1 t2 t3 t4 k cb st) as [-> | [-> | (w & Hg & ->)]].
  - exact Hb.
  - now apply bound_get.
  - pose proof (bound_get t3 t4 k _ Hb) as Hb'.
    destruct (decide (k = id)) as [->|Hk].
    + apply get_found in Hg as (_ & _ & Hin). destruct (Hb w Hin) as [Hr Hs].
      rewrite (authorize_bound e cb w A Hr). simpl.
      now apply bound_set_same.
    + now apply bound_set_other.
Qed.

Lemma bound_step st o :
  creates o <> Some id ->
  bound (whispers_cache st) -> bound (whispers_cache (step e st o)).
Proof.
  intros Hfresh Hb. destruct o; simpl.
  - destruct (create_whisper e uuid now sender recipient text (whispers_cache st))
      as [[r|] c'] eqn:E.
    + apply create_success in E as (_ & _ & rid & _ & ->). simpl.
      apply bound_set_other; [|exact Hb]. simpl in Hfresh. congruence.
    + pose proof (create_failure e uuid now sender recipient text
                    (whispers_cache st)) as Hf.
      rewrite E in Hf. specialize (Hf eq_refl). injection Hf as ->. exact Hb.
  - now apply bound_sweep.
  - now apply bound_get.
  - now apply bound_sweep.
  - now apply bound_handler.
Qed.

Lemma bound_run ops st :
  Forall (fun o => creates o <> Some id) ops ->
  bound (whispers_cache st) -> bound (whispers_cache (run e st ops)).
Proof.
  unfold run. revert st.
  induction ops as [|o ops IH]; simpl; intros st Hf Hb; [exact Hb|].
  inversion Hf; subst. apply IH; [assumption|]. now apply bound_step.
Qed.

(** A stranger's reveal of a bound whisper is refused. *)
Lemma bound_refuses b t1 t2 t3 t4 cb st :
  bot e = Some b ->
  bound (whispers_cache st) ->
  cb_user_id cb <> A -> cb_user_id cb <> S ->
  let r := whisper_callback_handler e t1 t2 t3 t4 id cb st in
  refused cb (fst r)
  /\ (gate_open t1 t2 cb st ->
      forall w, fst (get_whisper_by_id t3 t4 id (whispers_cache st)) = Some w ->
                fst r = on_error cb (answer cb NNoAccess true)
                /\ recipient_id w = Some A).
Proof.
  intros Hbot Hb HA HS. cbv zeta. rewrite (handler_with_bot e b) by exact Hbot.
  cbv zeta. unfold gate_open.
  assert (Hdeny : forall w,
            fst (get_whisper_by_id t3 t4 id (whispers_cache st)) = Some w ->
            recipient_id w = Some A /\
            negb (fst (fst (authorize e cb w))) && negb (snd (fst (authorize e cb w)))
            = true).
  { intros w Hg. apply get_found in Hg as (_ & _ & Hin).
    destruct (Hb w Hin) as [Hr Hs]. split; [exact Hr|].
    rewrite (authorize_bound e cb w A Hr). simpl.
    rewrite bool_decide_eq_false_2 by congruence.
    rewrite Hs. apply Z.eqb_neq in HS. rewrite Z.eqb_sym, HS. reflexivity. }
  destruct (fst (fst (check_view_cooldown _ _ _ _))) eqn:Ec; simpl.
  - destruct (fst (get_whisper_by_id _ _ _ _)) as [w|] eqn:Eg.
    + destruct (Hdeny w eq_refl) as [Hr Hd]. rewrite Hd. cbn [fst]. split.
      * eexists. split; [reflexivity|]. right. now left.
      * intros _ w' [= <-]. now split.
    + cbn [fst]. split; [|intros _ w' [=]].
      eexists. split; [reflexivity|]. now left.
  - split; [|discriminate].
    eexists. split; [reflexivity|]. right. right. now eexists.
Qed.

End Binding.

(** The first requester with the handle is let through and bound. *)
Lemma reveal_binds e b st id w cb t1 t2 t3 t4 :
  bot e = Some b ->
  cache_get id (whispers_cache st) = Some w ->
  recipient_id w = None ->
  handle_matches e cb w ->
  gate_open t1 t2 cb st ->
  (t3 <= expires_at w)%Q -> (t4 <= expires_at w)%Q ->
  whisper_callback_handler e t1 t2 t3 t4 id cb st
  = (on_error cb
       (present e b cb (sender_id w =? cb_user_id cb)
          (bind_recipient (cb_user_id cb) w)),
     mkState
       (cache_set id (bind_recipient (cb_user_id cb) w)
          (snd (_cleanup_expired_whispers t3 (whispers_cache st))))
       (snd (check_view_cooldown t1 t2 (cb_user_id cb) (view_cooldowns st)))).
Proof.
  intros Hbot Hg Hr Hm Hadm H3 H4.
  rewrite (handler_with_bot e b) by exact Hbot. cbv zeta.
  unfold gate_open in Hadm. rewrite Hadm. simpl negb. cbv iota.
  rewrite (get_live t3 t4 id _ w Hg H3 H4). cbn [fst snd].
  rewrite (authorize_match e cb w Hr Hm). reflexivity.
Qed.



(** * The presentation of a revealed whisper *)

Lemma on_error_answer cb n show_alert :
  on_error cb (answer cb n show_alert)
  = Answer n show_alert
    :: (if raised (cb_answer cb n show_alert)
        then [Answer NError true] else []).
Proof.
  unfold on_error, answer. cbn [fst snd]. now destruct (raised _).
Qed.

Lemma present_short e b cb is_sender w :
  len (message_text w) <= WHISPER_ALERT_MAX_LENGTH ->
  present e b cb is_sender w
  = answer cb (NReveal is_sender (counterpart_label e is_sender w)
                 (message_text w)) true.
Proof.
  intros Hl. unfold present. apply Z.leb_le in Hl. now rewrite Hl.
Qed.

Lemma present_long e b cb is_sender w :
  len (message_text w) > WHISPER_ALERT_MAX_LENGTH ->
  let m := mkFull is_sender (counterpart_label e is_sender w)
             (message_text w) in
  let failure :=
    Answer NDeliveryFailed true
    :: (if raised (cb_answer cb NDeliveryFailed true)
        then [Answer NError true] else []) in
  on_error cb (present e b cb is_sender w)
  = SendMessage (delivery_target cb) m
    :: match send_message b (delivery_target cb) m with
       | Ok _ =>
           Answer (delivery_ack cb) false
           :: (if raised (cb_answer cb (delivery_ack cb) false)
               then failure else [])
       | Raise => failure
       end.
Proof.
  intros Hl. unfold present, delivery_target, delivery_ack.
  assert (Hf : (len (message_text w) <=? WHISPER_ALERT_MAX_LENGTH) = false)
    by (apply Z.leb_gt; lia).
  rewrite Hf. cbv zeta. unfold on_error, answer.
  destruct (cb_chat_id cb) as [ch|]; cbn [truthy_id].
  - destruct (ch =? 0); cbn [negb];
      destruct (send_message b _ _); cbn [fst snd];
      repeat (destruct (raised _); cbn [fst snd app]); reflexivity.
  - destruct (send_message b _ _); cbn [fst snd];
      repeat (destruct (raised _); cbn [fst snd app]); reflexivity.
Qed.

(** C8: in the reveal path (gate passed, whisper found, requester
    authorized) a text of at most 170 characters is shown as one alert
    that holds the text; a longer text is sent as a message to the chat of
    the reveal action when there is one, else to the requester, and what
    is answered inline is only the short acknowledgment, or the
    delivery-failure notice when the send or the acknowledgment raises.
    An answer that raises with nothing left to catch it is followed by the
    error notice. *)
Theorem C8_reveal_presentation (e : env) (b : bot_client) (st : state)
  (id : str) (w : whisper) (cb : callback) (t1 t2 t3 t4 : Q) :
  bot e = Some b ->
  gate_open t1 t2 cb st ->
  fst (get_whisper_by_id t3 t4 id (whispers_cache st)) = Some w ->
  fst (fst (authorize e cb w)) || snd (fst (authorize e cb w)) = true ->
  let is_sender := snd (fst (authorize e cb w)) in
  let text := message_text w in
  let counterpart :=
    counterpart_label e is_sender (snd (authorize e cb w)) in
  let m := mkFull is_sender counterpart text in
  let alert := NReveal is_sender counterpart text in
  let failure :=
    Answer NDeliveryFailed true
    :: (if raised (cb_answer cb NDeliveryFailed true)
        then [Answer NError true] else []) in
  let effs := fst (whisper_callback_handler e t1 t2 t3 t4 id cb st) in
  (len text <= 170 ->
   effs = Answer alert true
          :: (if raised (cb_answer cb alert true)
              then [Answer NError true] else []))
  /\ (len text > 170 ->
      effs = SendMessage (delivery_target cb) m
             :: match send_message b (delivery_target cb) m with
                | Ok _ =>
                    Answer (delivery_ack cb) false
                    :: (if raised (cb_answer cb (delivery_ack cb) false)
                        then failure else [])
                | Raise => failure
                end).
Proof.
  intros Hbot Hadm Hg Hauth. cbv zeta.
  rewrite (handler_with_bot e b) by exact Hbot. cbv zeta.
  unfold gate_open in Hadm. rewrite Hadm, Hg. simpl negb. cbv iota.
  pose proof (authorize_same_but_recipient e cb w) as (_ & _ & Htext & _).
  destruct (authorize e cb w) as [[isr iss] w'] eqn:Ea. cbn [fst snd] in *.
  assert (Hsel : negb isr && negb iss = false)
    by (destruct isr, iss; try discriminate; reflexivity).
  rewrite Hsel. cbn [fst]. rewrite <- Htext. split; intros Hl.
  - rewrite present_short by exact Hl. apply on_error_answer.
  - now apply present_long.
Qed.

Lemma C8_reveal_presentation_witness :
  let id := lit "id-1" in
  let long := repeat "a"%char 200 in
  let w := mkWhisper 7 (Some 9) (lit "bob") long 0 (0 + TTL)%Q in
  let st := mkState [(id, w)] ∅ in
  let cb := mkCallback 9 (Some (lit "bob")) (Some (-100)) in
  len long = 200
  /\ fst (whisper_callback_handler env_plain 1 1 1 1 id cb st)
     = [SendMessage (-100) (mkFull false Unknown long);
        Answer NSentToChat false].
Proof.
  intros id long w st cb. split; [reflexivity|].
  destruct (C8_reveal_presentation env_plain bot_plain st id w cb 1 1 1 1
              eq_refl eq_refl eq_refl eq_refl) as [_ Hlong].
  exact (Hlong eq_refl).
Defined.

(** C10: when the sender's own handle is unknown to the directory (as
    typed and lower-cased) and the platform lookup raises or no bot client
    is registered, [create_whisper] addressed to that handle succeeds for a
    text of at most 1000 characters and stores the whisper without
    recipient id; the sender, presenting that handle, is then authorized
    as recipient (and as sender) and bound to the whisper. *)
Theorem C10_self_addressed (e : env) (uuid : str) (t0 : Q) (sender : Z)
  (h text : str) (c : cache) :
  db_get_user_by_username e h = Ok None ->
  db_get_user_by_username e (lower h) = Ok None ->
  (bot e = None \/ exists b, bot e = Some b /\ get_chat b (AT :: h) = Raise) ->
  len text <= 1000 ->
  let w := mkWhisper sender None (lower h) text t0 (t0 + TTL)%Q in
  create_whisper e uuid t0 sender h text c = (Some uuid, cache_set uuid w c)
  /\ (h <> [] ->
      forall e' cb,
        cb_user_id cb = sender -> cb_username cb = Some h ->
        authorize e' cb w = ((true, true), bind_recipient sender w)).
Proof.
  intros Hdb Hdbl Hplat Hl w. split.
  - assert (Hu : resolve_recipient e h = Unresolved).
    { unfold resolve_recipient. rewrite Hdb, Hdbl.
      destruct Hplat as [-> | (b & -> & ->)]; reflexivity. }
    unfold create_whisper. rewrite resolve_block_spec, Hu.
    unfold WHISPER_MAX_LENGTH.
    destruct (len text >? 1000) eqn:El; [lia | reflexivity].
  - intros Hh e' cb Hid Hu.
    rewrite (authorize_binds e' cb w h eq_refl Hu Hh eq_refl).
    rewrite Hid. simpl. now rewrite Z.eqb_refl.
Qed.

Lemma C10_self_addressed_witness :
  let w := mkWhisper 7 None (lit "me") (lit "note") 0 (0 + TTL)%Q in
  create_whisper env_plain (lit "id-1") 0 7 (lit "Me") (lit "note") []
    = (Some (lit "id-1"), [(lit "id-1", w)])
  /\ authorize env_plain (mkCallback 7 (Some (lit "Me")) None) w
     = ((true, true), bind_recipient 7 w).
Proof.
  intros w.
  destruct (C10_self_addressed env_plain (lit "id-1") 0 7 (lit "Me")
              (lit "note") [] eq_refl eq_refl) as [Hc Ha].
  - right. exists bot_plain. split; reflexivity.
  - vm_compute. discriminate.
  - split; [exact Hc|].
    apply Ha; [discriminate | reflexivity | reflexivity].
Defined.

(** * The listing *)

Lemma insert_desc_perm x l : Permutation (x :: l) (insert_desc x l).
Proof.
  induction l as [|y l IH]; simpl; [reflexivity|].
  destruct (flt _ _); [|reflexivity].
  rewrite perm_swap. now apply perm_skip.
Qed.

Lemma sort_desc_perm l : Permutation (sort_desc l) l.
Proof.
  induction l as [|x l IH]; simpl; [reflexivity|].
  rewrite <- insert_desc_perm. now apply perm_skip.
Qed.

Lemma insert_desc_sorted x l :
  Sorted.StronglySorted newer_first l ->
  Sorted.StronglySorted newer_first (insert_desc x l).
Proof.
  induction 1 as [|y l Hs IH Hy]; simpl.
  - constructor; constructor.
  - destruct (flt _ _) eqn:E.
    + constructor; [exact IH|].
      apply List.Forall_forall. intros z Hz.
      apply (Permutation_in z (Permutation_sym (insert_desc_perm x l))) in Hz.
      destruct Hz as [<-|Hz].
      * apply flt_true in E. unfold newer_first. lra.
      * rewrite List.Forall_forall in Hy. auto.
    + apply flt_false in E. constructor; [now constructor|].
      constructor; [exact E|].
      apply List.Forall_forall. intros z Hz.
      rewrite List.Forall_forall in Hy. specialize (Hy z Hz).
      unfold newer_first in *. lra.
Qed.

Lemma sort_desc_sorted l : Sorted.StronglySorted newer_first (sort_desc l).
Proof.
  induction l as [|x l IH]; simpl; [constructor|].
  now apply insert_desc_sorted.
Qed.

Lemma filter_twice {X : Type} (f g : X -> bool) (l : list X) :
  List.filter f (List.filter g l) = List.filter (fun x => g x && f x) l.
Proof.
  induction l as [|x l IH]; simpl; [reflexivity|].
  destruct (g x); simpl; [destruct (f x)|]; now rewrite IH.
Qed.

(** The two tests of the listing, the sweep at [t_sweep] and the loop at
    [now], select the listed whispers when the clock does not go back. *)
Lemma selected_listed (t_sweep now : Q) (uid : Z) (uname : option str)
  (w : whisper) :
  (t_sweep <= now)%Q ->
  negb (flt (expires_at w) t_sweep)
  && selected now uid
       match truthy_str uname with Some u => Some (lower u) | None => None end
       w
  = listed now uid uname w.
Proof.
  intros Hclock. unfold selected, listed.
  change (flt now (expires_at w)) with (negb (fle (expires_at w) now)).
  destruct (fle (expires_at w) now) eqn:E; simpl.
  - apply andb_false_r.
  - apply fle_false in E.
    assert (Hk : flt (expires_at w) t_sweep = false) by (apply flt_false; lra).
    rewrite Hk. simpl.
    destruct (bool_decide (recipient_id w = Some uid)); [reflexivity|]. simpl.
    destruct (recipient_id w); [now destruct (truthy_str uname)|].
    now destruct uname as [[|x u]|].
Qed.

Lemma listed_spec (now : Q) (uid : Z) (uname : option str) (w : whisper) :
  listed now uid uname w = true <->
  (now < expires_at w)%Q
  /\ (recipient_id w = Some uid
      \/ (recipient_id w = None
          /\ exists h, uname = Some h /\ h <> []
                       /\ recipient_username w = lower h)).
Proof.
  unfold listed. rewrite andb_true_iff, flt_true, orb_true_iff.
  rewrite bool_decide_eq_true.
  split; intros [Ht Hr]; (split; [exact Ht|]).
  - destruct Hr as [Hr|Hr]; [now left|]. right.
    destruct (recipient_id w); [discriminate|].
    destruct uname as [h|]; [|discriminate].
    apply andb_true_iff in Hr as [Hh He]. apply str_eqb_eq in He.
    split; [reflexivity|]. exists h. repeat split; [|exact He].
    intros ->. discriminate.
  - destruct Hr as [Hr|(Hn & h & -> & Hh & He)]; [now left|]. right.
    rewrite Hn, He, str_eqb_refl. now destruct h.
Qed.

(** The listing as the code computes it: a permutation of the entries
    with [now < expires_at] whose recipient id is the user's id, or which
    have no recipient id and the supplied handle lower-cased as recipient
    handle; sorted by creation time, most recent first.  (The clock does
    not go back between the two readings of the call.) *)
Theorem listing_exact (t_sweep now : Q) (uid : Z) (uname : option str)
  (c : cache) :
  (t_sweep <= now)%Q ->
  let r := fst (get_whispers_for_user t_sweep now uid uname c) in
  Permutation r (List.filter (fun kv => listed now uid uname (snd kv)) c)
  /\ Sorted.StronglySorted newer_first r
  /\ (forall id w,
        In (id, w) r <->
        In (id, w) c
        /\ (now < expires_at w)%Q
        /\ (recipient_id w = Some uid
            \/ (recipient_id w = None
                /\ exists h, uname = Some h /\ h <> []
                             /\ recipient_username w = lower h))).
Proof.
  intros Hclock r.
  assert (Hperm : Permutation r
            (List.filter (fun kv => listed now uid uname (snd kv)) c)).
  { subst r. unfold get_whispers_for_user. cbn [fst snd].
    rewrite sort_desc_perm. unfold _cleanup_expired_whispers. cbn [snd].
    rewrite filter_twice.
    erewrite filter_ext; [reflexivity|].
    intros kv. now apply selected_listed. }
  split; [exact Hperm|]. split; [apply sort_desc_sorted|].
  intros id w. split.
  - intros Hin. apply (Permutation_in _ Hperm) in Hin.
    apply filter_In in Hin as [Hin Hl]. now apply listed_spec in Hl.
  - intros [Hin Hl]. apply (Permutation_in _ (Permutation_sym Hperm)).
    apply filter_In. split; [exact Hin|]. now apply listed_spec.
Qed.

Lemma listing_exact_witness :
  let w1 := mkWhisper 7 (Some 9) (lit "bob") (lit "first") 10 (10 + TTL)%Q in
  let w2 := mkWhisper 7 None (lit "bob") (lit "second") 20 (20 + TTL)%Q in
  let w3 := mkWhisper 7 (Some 8) (lit "ann") (lit "third") 30 (30 + TTL)%Q in
  let c := [(lit "a", w1); (lit "b", w2); (lit "c", w3)] in
  fst (get_whispers_for_user 40 40 9 (Some (lit "Bob")) c)
    = [(lit "b", w2); (lit "a", w1)]
  /\ Sorted.StronglySorted newer_first
       (fst (get_whispers_for_user 40 40 9 (Some (lit "Bob")) c)).
Proof.
  intros w1 w2 w3 c. split; [reflexivity|].
  apply (listing_exact 40 40 9 (Some (lit "Bob")) c). discriminate.
Defined.

(** * Further facts about the string primitives *)

Module PyStrMore.

Import PyStrFacts.

Lemma forallb_dropwhile (p : ascii -> bool) (s : str) :
  forallb p (dropwhile p s) = forallb p s.
Proof.
  induction s as [|c s IH]; simpl; [reflexivity|].
  destruct (p c) eqn:E; simpl; [exact IH | now rewrite E].
Qed.

Lemma forallb_rev (p : ascii -> bool) (s : str) :
  forallb p (rev s) = forallb p s.
Proof.
  induction s as [|c s IH]; simpl; [reflexivity|].
  rewrite forallb_app, IH. simpl. rewrite andb_true_r. apply andb_comm.
Qed.

(** Stripping leaves nothing exactly when the string is white space. *)
Lemma strip_nil_iff (s : str) : strip s = [] <-> forallb isspace s = true.
Proof.
  unfold strip, lstrip_by, rstrip_by.
  rewrite <- (forallb_dropwhile isspace s), <- (forallb_rev isspace (dropwhile _ s)).
  rewrite dropwhile_all. split.
  - intros H. apply (f_equal (@rev ascii)) in H.
    now rewrite rev_involutive in H.
  - intros ->. reflexivity.
Qed.

Lemma dropwhile_suffix (p : ascii -> bool) (s : str) :
  exists pre, s = pre ++ dropwhile p s.
Proof.
  induction s as [|c s [pre IH]]; simpl; [now exists []|].
  destruct (p c); [|now exists []].
  exists (c :: pre). simpl. now f_equal.
Qed.

Lemma dropwhile_length (p : ascii -> bool) (s : str) :
  (length (dropwhile p s) <= length s)%nat.
Proof.
  induction s as [|c s IH]; simpl; [lia|]. destruct (p c); simpl; lia.
Qed.

(** A string that stripping leaves alone ends in a visible character, and
    so does each of its non-empty ends. *)
Lemma rstrip_of_suffix (p : ascii -> bool) (pre x : str) :
  rstrip_by p (pre ++ x) = pre ++ x -> x <> [] -> rstrip_by p x = x.
Proof.
  unfold rstrip_by. intros H Hx.
  apply (f_equal (@rev ascii)) in H. rewrite rev_involutive, rev_app_distr in H.
  destruct (rev x) as [|c r] eqn:E.
  - exfalso. apply Hx. apply (f_equal (@rev ascii)) in E.
    now rewrite rev_involutive in E.
  - simpl in *. destruct (p c) eqn:Ec.
    + exfalso. pose proof (dropwhile_length p (r ++ rev pre)) as Hl.
      rewrite H in Hl. simpl in Hl. lia.
    + cbv iota. rewrite <- E. apply rev_involutive.
Qed.

Lemma rstrip_of_stripped (s : str) : strip s = s -> rstrip_by isspace s = s.
Proof. intros H. rewrite <- H. unfold strip. apply rstrip_by_idem. Qed.

(** The last occurrence found by [rfind]. *)
Lemma rfind_from_cases (c : ascii) (s : str) (i last : Z) :
  (rfind_from c s i last = last /\ ~ In c s)
  \/ exists a b, s = a ++ c :: b /\ ~ In c b
                 /\ rfind_from c s i last = i + len a.
Proof.
  revert i last. induction s as [|x s IH]; intros i last; simpl.
  - left. tauto.
  - destruct (IH (i + 1) (if Ascii.eqb x c then i else last))
      as [[Hr Hn] | (a & b & -> & Hb & Hr)].
    + destruct (Ascii.eqb_spec x c) as [->|Hx].
      * right. exists [], s. repeat split; [exact Hn|].
        rewrite Hr. unfold len. simpl. lia.
      * left. split; [exact Hr|]. intros [H|H]; [congruence | tauto].
    + right. exists (x :: a), b. repeat split; [exact Hb|].
      rewrite Hr. unfold len. simpl length. lia.
Qed.

Lemma rfind_cases (c : ascii) (s : str) :
  (rfind c s = -1 /\ ~ In c s)
  \/ exists a b, s = a ++ c :: b /\ ~ In c b /\ rfind c s = len a.
Proof.
  destruct (rfind_from_cases c s 0 (-1)) as [H | (a & b & H1 & H2 & H3)];
    [now left|].
  right. exists a, b. repeat split; auto.
Qed.

Lemma mem_char_In (c : ascii) (s : str) : mem_char c s = true <-> In c s.
Proof.
  unfold mem_char. rewrite existsb_exists. split.
  - intros (x & Hx & He). apply Ascii.eqb_eq in He. now subst.
  - intros H. exists c. split; [exact H | apply Ascii.eqb_refl].
Qed.

(** The words of [split] are made of visible characters of the string. *)
Lemma split_go_In (s cur w : str) (x : ascii) :
  (forall y, In y cur -> isspace y = false) ->
  In w (split_go s cur) -> In x w ->
  isspace x = false /\ (In x cur \/ In x s).
Proof.
  revert cur. induction s as [|c s IH]; simpl; intros cur Hcur Hw Hx.
  - destruct cur as [|y cur]; [contradiction|].
    destruct Hw as [<-|[]]. apply in_rev in Hx. split; auto.
  - destruct (isspace c) eqn:Ec.
    + destruct cur as [|y cur].
      * destruct (IH [] Hcur Hw Hx) as [H1 [[]|H2]]. auto.
      * destruct Hw as [<-|Hw].
        -- apply in_rev in Hx. split; auto.
        -- destruct (IH [] (fun y (H : In y []) => match H with end) Hw Hx)
             as [H1 [[]|H2]]. auto.
    + assert (Hcur' : forall y, In y (c :: cur) -> isspace y = false).
      { intros y [<-|Hy]; auto. }
      destruct (IH (c :: cur) Hcur' Hw Hx) as [H1 [[<-|H2]|H2]]; auto.
Qed.

Lemma split_In (s w : str) (x : ascii) :
  In w (split s) -> In x w -> isspace x = false /\ In x s.
Proof.
  intros Hw Hx.
  destruct (split_go_In s [] w x (fun y (H : In y []) => match H with end) Hw Hx)
    as [H1 [[]|H2]]. auto.
Qed.

Lemma split_go_nil (s cur : str) :
  split_go s cur = [] -> cur = [] /\ forallb isspace s = true.
Proof.
  revert cur. induction s as [|c s IH]; simpl; intros cur H.
  - destruct cur; [auto | discriminate].
  - destruct (isspace c) eqn:Ec.
    + destruct cur; [|discriminate]. destruct (IH [] H). auto.
    + destruct (IH (c :: cur) H) as [Hc _]. discriminate.
Qed.

End PyStrMore.

(** * What the parser returns *)

(** The recipient drawn from a non-empty stripped part: one word, made of
    characters of the part, without trailing punctuation. *)
Lemma recipient_of_part_shape (part : str) :
  strip part = part -> part <> [] ->
  one_word (recipient_of_part part)
  /\ rstrip_chars PUNCT (recipient_of_part part) = recipient_of_part part
  /\ forall x, In x (recipient_of_part part) -> In x part.
Proof.
  intros Hs Hne. unfold recipient_of_part.
  destruct (split part) as [|w ws] eqn:E.
  - exfalso. apply Hne. rewrite <- Hs. apply PyStrMore.strip_nil_iff.
    unfold split in E. now apply PyStrMore.split_go_nil in E.
  - assert (Hw : forall x, In x w -> isspace x = false /\ In x part).
    { intros x Hx. apply (PyStrMore.split_In part w x); [|exact Hx].
      rewrite E. now left. }
    split; [|split].
    + unfold one_word. apply forallb_forall. intros x Hx.
      apply PyStrFacts.rstrip_by_In in Hx. apply negb_true_iff.
      now apply Hw.
    + apply PyStrFacts.rstrip_by_idem.
    + intros x Hx. apply PyStrFacts.rstrip_by_In in Hx. now apply Hw.
Qed.

(** What a successful split at the last marker says about its input. *)
Lemma split_at_last_marker_Some (r t h : str) :
  split_at_last_marker r = Some (t, h) ->
  exists a b, r = a ++ AT :: b /\ ~ In AT b
              /\ t = strip a /\ t <> []
              /\ strip b <> [] /\ h = recipient_of_part (strip b) /\ h <> [].
Proof.
  unfold split_at_last_marker.
  destruct (truthy r); [|discriminate]. simpl negb. cbv iota.
  destruct (PyStrMore.rfind_cases AT r) as [[Hr _] | (a & b & Hab & Hb & Hr)].
  - rewrite Hr. discriminate.
  - rewrite Hr.
    assert (Hne : (len a =? -1) = false) by (apply Z.eqb_neq; unfold len; lia).
    rewrite Hne.
    assert (Hsk : slice_from r (len a + 1) = b).
    { rewrite Hab. replace (len a + 1) with (len (a ++ [AT]))
        by (unfold len; rewrite length_app; simpl; lia).
      replace (a ++ AT :: b) with ((a ++ [AT]) ++ b)
        by (now rewrite <- app_assoc).
      apply PyStrFacts.skipn_len_app. }
    assert (Hfi : slice_to r (len a) = a)
      by (rewrite Hab; apply PyStrFacts.firstn_len_app).
    rewrite Hsk, Hfi.
    destruct (strip b) as [|x sb] eqn:Eb; [discriminate|]. simpl negb. cbv iota.
    destruct (recipient_of_part (x :: sb)) as [|y rh] eqn:Eh; [discriminate|].
    simpl negb. cbv iota.
    destruct (strip a) as [|z sa] eqn:Ea; [discriminate|]. simpl.
    intros [= <- <-]. exists a, b. rewrite Ea, Eb, Eh.
    repeat split; auto; discriminate.
Qed.

(** X1: whatever the parser returns is well formed: the text is not empty
    and has no white space at its ends; the handle is not empty, is one
    word, holds no marker and does not end in punctuation. *)
Theorem parse_result_wellformed (query bot_username t h : str) :
  _parse_whisper_query query bot_username = Some (t, h) ->
  t <> [] /\ strip t = t
  /\ h <> [] /\ one_word h /\ ~ In AT h /\ rstrip_chars PUNCT h = h.
Proof.
  unfold _parse_whisper_query.
  destruct (bot_mention_remaining query bot_username) as [r|]; [|discriminate].
  intros (a & b & _ & Hb & -> & Ht & Hsb & -> & Hh)%split_at_last_marker_Some.
  destruct (recipient_of_part_shape (strip b) (PyStrFacts.strip_idem b) Hsb)
    as (Hw & Hp & Hin).
  repeat split; auto.
  - apply PyStrFacts.strip_idem.
  - intros HAT. apply Hb. apply Hin in HAT.
    unfold strip in HAT. apply PyStrFacts.rstrip_by_In in HAT.
    now apply PyStrFacts.dropwhile_In in HAT.
Qed.

Lemma parse_result_wellformed_witness :
  _parse_whisper_query (lit "@MyBot  see @you later  @Bob?! now") (lit "mybot")
    = Some (lit "see @you later", lit "Bob")
  /\ one_word (lit "Bob") /\ rstrip_chars PUNCT (lit "Bob") = lit "Bob".
Proof.
  split; [reflexivity|].
  destruct (parse_result_wellformed
              (lit "@MyBot  see @you later  @Bob?! now") (lit "mybot")
              (lit "see @you later") (lit "Bob") eq_refl)
    as (_ & _ & _ & Hw & _ & Hp).
  split; [exact Hw | exact Hp].
Defined.

(** X2: the parser depends on the bot's name only up to case. *)
Theorem parse_bot_name_case (query B B' : str) :
  lower B = lower B' ->
  _parse_whisper_query query B = _parse_whisper_query query B'.
Proof.
  intros HB. unfold _parse_whisper_query.
  assert (Hrem : bot_mention_remaining query B = bot_mention_remaining query B').
  { assert (Hlen : len B = len B').
    { rewrite <- (PyStrFacts.len_lower B), <- (PyStrFacts.len_lower B').
      now rewrite HB. }
    assert (Hlen1 : forall X : str, len (AT :: X) = len X + 1)
      by (intros X; unfold len; simpl length; lia).
    unfold bot_mention_remaining. rewrite <- HB.
    rewrite !Hlen1, !PyStrFacts.len_lower, <- Hlen.
    destruct (negb (truthy query)); [reflexivity|].
    destruct (startswith _ (AT :: lower B)).
    - now destruct (startswith _ (AT :: B)), (startswith _ (AT :: B')).
    - destruct (startswith _ (lower B)); [|reflexivity].
      now destruct (startswith _ B), (startswith _ B'). }
  now rewrite Hrem.
Qed.

Lemma parse_bot_name_case_witness :
  _parse_whisper_query (lit "@mybot hi @bob") (lit "MyBot")
  = _parse_whisper_query (lit "@mybot hi @bob") (lit "MYBOT").
Proof. apply parse_bot_name_case. reflexivity. Defined.

(** X3: white space around the query does not matter. *)
Theorem parse_ignores_outer_space (query bot_username : str) :
  _parse_whisper_query (strip query) bot_username
  = _parse_whisper_query query bot_username.
Proof.
  unfold _parse_whisper_query, bot_mention_remaining.
  rewrite PyStrFacts.strip_idem.
  destruct query as [|x q]; [reflexivity|].
  change (negb (truthy (x :: q))) with false. cbv iota.
  remember (strip (x :: q)) as sq eqn:Es.
  destruct sq as [|c s]; [|reflexivity].
  simpl negb. cbv iota. simpl lower.
  change (startswith [] (AT :: lower bot_username)) with false. cbv iota.
  unfold slice_from. rewrite !skipn_nil.
  destruct (startswith [] (lower bot_username)); [|reflexivity].
  now destruct (startswith [] bot_username).
Qed.

(** * More about the cache operations *)

Lemma cache_get_of_In (id : str) (w : whisper) (c : cache) :
  dict_ok c -> In (id, w) c -> cache_get id c = Some w.
Proof.
  intros Hd Hin. destruct (cache_get id c) as [w'|] eqn:E.
  - f_equal. apply (dict_ok_unique id w' w c Hd); [|exact Hin].
    now apply cache_get_In.
  - exfalso. revert E. clear Hd.
    induction c as [|[k v] c IH]; simpl in *; [contradiction|].
    destruct Hin as [[= -> ->]|Hin].
    + now rewrite str_eqb_refl.
    + destruct (str_eqb k id); [discriminate | auto].
Qed.

Lemma cache_get_del_same (id : str) (c : cache) :
  dict_ok c -> cache_get id (cache_del id c) = None.
Proof.
  intros Hd. apply cache_get_none. intros w Hin.
  unfold dict_ok in Hd. induction c as [|[k v] c IH]; simpl in *; [contradiction|].
  inversion Hd; subst. destruct (str_eqb k id) eqn:E.
  - apply str_eqb_eq in E. subst k. apply H1.
    apply (in_map fst) in Hin. exact Hin.
  - destruct Hin as [[= -> _]|Hin]; [|auto].
    rewrite str_eqb_refl in E. discriminate.
Qed.

Lemma filter_count {X : Type} (f : X -> bool) (l : list X) :
  (length (List.filter f l) + length (List.filter (fun x => negb (f x)) l)
   = length l)%nat.
Proof.
  induction l as [|x l IH]; simpl; [reflexivity|].
  destruct (f x); simpl; lia.
Qed.

(** X4: the sweep keeps exactly the entries that have not expired
    ([now <= expires_at]), returns the number of entries it dropped, and
    leaves every surviving whisper under its id. *)
Theorem sweep_partition (now : Q) (c : cache) :
  let n := fst (_cleanup_expired_whispers now c) in
  let c' := snd (_cleanup_expired_whispers now c) in
  (forall kv, In kv c' <-> In kv c /\ (now <= expires_at (snd kv))%Q)
  /\ n + len_cache c' = len_cache c
  /\ (dict_ok c ->
      dict_ok c'
      /\ forall id w, cache_get id c' = Some w <->
                      cache_get id c = Some w /\ (now <= expires_at w)%Q).
Proof.
  cbv zeta. unfold _cleanup_expired_whispers. cbn [fst snd].
  assert (Hin : forall kv,
            In kv (List.filter
                     (fun kv => negb (flt (expires_at (snd kv)) now)) c)
            <-> In kv c /\ (now <= expires_at (snd kv))%Q).
  { intros kv. rewrite filter_In, negb_true_iff, flt_false. tauto. }
  split; [exact Hin|]. split.
  - unfold len_cache.
    pose proof (filter_count (fun kv : str * whisper =>
                                flt (expires_at (snd kv)) now) c). lia.
  - intros Hd. split; [now apply dict_ok_filter|].
    intros id w. split.
    + intros Hg. apply cache_get_In, Hin in Hg as [Hg Ht].
      split; [now apply cache_get_of_In | exact Ht].
    + intros [Hg Ht]. apply cache_get_filter_keep; [exact Hg|].
      simpl. now apply negb_true_iff, flt_false.
Qed.

Lemma sweep_partition_witness :
  let w1 := mkWhisper 7 None (lit "bob") (lit "old") 0 (0 + TTL)%Q in
  let w2 := mkWhisper 7 None (lit "bob") (lit "new") 9000 (9000 + TTL)%Q in
  let c := [(lit "a", w1); (lit "b", w2)] in
  _cleanup_expired_whispers 10801 c = (1, [(lit "b", w2)])
  /\ cache_get (lit "b") (snd (_cleanup_expired_whispers 10801 c)) = Some w2.
Proof.
  intros w1 w2 c. split; [reflexivity|].
  destruct (sweep_partition 10801 c) as (_ & _ & Hd).
  destruct Hd as [_ Hg].
  - repeat constructor; simpl; intuition discriminate.
  - apply Hg. split; [reflexivity | vm_compute; discriminate].
Defined.

(** X5: a sweep at the same or an earlier time after a sweep removes
    nothing, and two sweeps commute. *)
Theorem sweep_again (t1 t2 : Q) (c : cache) :
  let c1 := snd (_cleanup_expired_whispers t1 c) in
  ((t2 <= t1)%Q -> _cleanup_expired_whispers t2 c1 = (0, c1))
  /\ snd (_cleanup_expired_whispers t2 c1)
     = snd (_cleanup_expired_whispers t1
              (snd (_cleanup_expired_whispers t2 c))).
Proof.
  cbv zeta. unfold _cleanup_expired_whispers. cbn [fst snd]. split.
  - intros Hle.
    assert (Hall : forall kv,
              In kv (List.filter
                       (fun kv => negb (flt (expires_at (snd kv)) t1)) c) ->
              flt (expires_at (snd kv)) t2 = false).
    { intros kv [_ Hk]%filter_In. apply negb_true_iff, flt_false in Hk.
      apply flt_false. lra. }
    induction (List.filter _ c) as [|kv l IH]; [reflexivity|].
    assert (Hkv : flt (expires_at (snd kv)) t2 = false)
      by (apply Hall; now left).
    assert (IH' := IH (fun x Hx => Hall x (or_intror Hx))).
    injection IH' as Hn Hl. simpl. rewrite Hkv. simpl.
    rewrite Hl. f_equal. exact Hn.
  - rewrite !filter_twice. apply filter_ext. intros kv. apply andb_comm.
Qed.

Lemma sweep_again_witness :
  let w1 := mkWhisper 7 None (lit "bob") (lit "old") 0 (0 + TTL)%Q in
  let w2 := mkWhisper 7 None (lit "bob") (lit "new") 9000 (9000 + TTL)%Q in
  let c := [(lit "a", w1); (lit "b", w2)] in
  _cleanup_expired_whispers 10000
    (snd (_cleanup_expired_whispers 10801 c)) = (0, [(lit "b", w2)]).
Proof.
  intros w1 w2 c.
  apply (proj1 (sweep_again 10801 10000 c)). vm_compute. discriminate.
Defined.

(** X6: a successful creation stores the whisper under the new id with the
    given sender, lower-cased handle, text and times, leaves every other
    id as it was, and keeps the dict well formed; the cache grows by one
    entry unless the id was already in use, in which case that entry is
    overwritten in place. *)
Theorem create_frame (e : env) (uuid : str) (t0 : Q) (sender : Z)
  (rname text : str) (c c' : cache) (r : str) :
  create_whisper e uuid t0 sender rname text c = (Some r, c') ->
  r = uuid
  /\ (exists rid,
        cache_get uuid c'
        = Some (mkWhisper sender rid (lower rname) text t0 (t0 + TTL)%Q))
  /\ (forall id, id <> uuid -> cache_get id c' = cache_get id c)
  /\ len_cache c'
     = len_cache c + (match cache_get uuid c with Some _ => 0 | None => 1 end)
  /\ (dict_ok c -> dict_ok c').
Proof.
  intros (-> & _ & rid & _ & ->)%create_success.
  set (w := mkWhisper sender rid (lower rname) text t0 (t0 + TTL)%Q).
  split; [reflexivity|]. split; [|split; [|split]].
  - exists rid. apply cache_get_set_same.
  - intros id Hid. apply cache_get_set_other. congruence.
  - unfold len_cache. clearbody w.
    induction c as [|[k v] c IH]; simpl; [reflexivity|].
    destruct (str_eqb k uuid); simpl; [lia|].
    destruct (cache_get uuid c); simpl in *; lia.
  - apply dict_ok_set.
Qed.

Lemma create_frame_witness :
  let w := mkWhisper 7 None (lit "bob") (lit "old") 0 (0 + TTL)%Q in
  let c := [(lit "a", w)] in
  let c' := snd (create_whisper env_offline (lit "a") 5 8 (lit "Ann")
                   (lit "new") c) in
  len_cache c' = 1
  /\ (exists rid, cache_get (lit "a") c'
        = Some (mkWhisper 8 rid (lit "ann") (lit "new") 5 (5 + TTL)%Q)).
Proof.
  intros w c c'.
  destruct (create_frame env_offline (lit "a") 5 8 (lit "Ann") (lit "new")
              c c' (lit "a") eq_refl) as (_ & Hg & _ & Hl & _).
  split; [exact Hl | exact Hg].
Defined.

(** X7: a read does not consume: after a read that returned a whisper,
    another read whose clock values are not past the expiry returns the
    same whisper. *)
Theorem read_again (t1 t2 t3 t4 : Q) (id : str) (c : cache) (w : whisper) :
  fst (get_whisper_by_id t1 t2 id c) = Some w ->
  (t3 <= expires_at w)%Q -> (t4 <= expires_at w)%Q ->
  fst (get_whisper_by_id t3 t4 id (snd (get_whisper_by_id t1 t2 id c)))
  = Some w.
Proof.
  intros Hg H3 H4. apply get_found in Hg as (Hg & _ & _).
  now rewrite (get_live t3 t4 id _ w Hg H3 H4).
Qed.

Lemma read_again_witness :
  let w := mkWhisper 7 None (lit "bob") (lit "hi") 0 (0 + TTL)%Q in
  let c := [(lit "a", w)] in
  fst (get_whisper_by_id 50 50 (lit "a")
         (snd (get_whisper_by_id 10 10 (lit "a") c))) = Some w.
Proof.
  intros w c.
  apply (read_again 10 10 50 50 (lit "a") c w eq_refl);
    vm_compute; discriminate.
Defined.

Lemma get_none_evicts (t1 t2 : Q) (id : str) (c : cache) :
  dict_ok c ->
  fst (get_whisper_by_id t1 t2 id c) = None ->
  cache_get id (snd (get_whisper_by_id t1 t2 id c)) = None.
Proof.
  intros Hd. unfold get_whisper_by_id.
  pose proof (dict_ok_filter
                (fun kv => negb (flt (expires_at (snd kv)) t1)) c Hd) as Hd1.
  change (List.filter _ c) with (snd (_cleanup_expired_whispers t1 c)) in Hd1.
  destruct (cache_get id (snd (_cleanup_expired_whispers t1 c))) as [w|] eqn:Eg.
  - destruct (flt (expires_at w) t2); [|discriminate]. intros _.
    now apply cache_get_del_same.
  - intros _. exact Eg.
Qed.

(** X8: after a read that returned nothing, no entry is left under that
    id: an unknown id stays unknown and an expired hit is evicted; the
    read adds nothing to the cache. *)
Theorem read_absent_evicts (t1 t2 : Q) (id : str) (c : cache) :
  dict_ok c ->
  fst (get_whisper_by_id t1 t2 id c) = None ->
  cache_get id (snd (get_whisper_by_id t1 t2 id c)) = None
  /\ forall kv, In kv (snd (get_whisper_by_id t1 t2 id c)) -> In kv c.
Proof.
  intros Hd Hn. split; [now apply get_none_evicts|].
  intros kv. unfold get_whisper_by_id.
  assert (Hsub : In kv (snd (_cleanup_expired_whispers t1 c)) -> In kv c)
    by (intros [H _]%filter_In; exact H).
  destruct (cache_get id _) as [w|]; [|exact Hsub].
  destruct (flt _ _); [|exact Hsub]. intros H%In_cache_del. auto.
Qed.

Lemma read_absent_evicts_witness :
  let w := mkWhisper 7 None (lit "bob") (lit "hi") 0 (0 + TTL)%Q in
  cache_get (lit "a")
    (snd (get_whisper_by_id 10 10900 (lit "a") [(lit "a", w)])) = None.
Proof.
  intros w.
  apply (read_absent_evicts 10 10900 (lit "a") [(lit "a", w)]);
    [|reflexivity].
  repeat constructor. simpl. tauto.
Defined.

(** X10: the listing holds each id at most once, every listed whisper is
    the one stored under its id, and the cache is left as the sweep leaves
    it. *)
Theorem listing_entries (t_sweep now : Q) (uid : Z) (uname : option str)
  (c : cache) :
  dict_ok c ->
  let r := get_whispers_for_user t_sweep now uid uname c in
  List.NoDup (map fst (fst r))
  /\ (forall id w, In (id, w) (fst r) -> cache_get id c = Some w)
  /\ snd r = snd (_cleanup_expired_whispers t_sweep c).
Proof.
  intros Hd r. subst r. unfold get_whispers_for_user. cbn [fst snd].
  match goal with |- context [sort_desc ?x] => set (l := x) end.
  assert (Hp : Permutation (sort_desc l) l) by apply sort_desc_perm.
  split; [|split; [|reflexivity]].
  - apply (Permutation_NoDup (l := map fst l)).
    + apply Permutation_map. now symmetry.
    + subst l. now apply dict_ok_filter, dict_ok_filter.
  - intros id w Hin. apply (Permutation_in _ Hp) in Hin.
    subst l. apply filter_In in Hin as [Hin _].
    apply filter_In in Hin as [Hin _]. now apply cache_get_of_In.
Qed.

Lemma listing_entries_witness :
  let w1 := mkWhisper 7 (Some 9) (lit "bob") (lit "first") 10 (10 + TTL)%Q in
  let w2 := mkWhisper 7 (Some 9) (lit "bob") (lit "second") 20 (20 + TTL)%Q in
  let c := [(lit "a", w1); (lit "b", w2)] in
  List.NoDup (map fst (fst (get_whispers_for_user 40 40 9 None c))).
Proof.
  intros w1 w2 c. apply (listing_entries 40 40 9 None c).
  repeat constructor; simpl; intuition discriminate.
Defined.

(** * More about the cooldown *)

Lemma check_denied_inv (t ts : Q) (uid : Z) (cd : gmap Z Q) :
  fst (fst (check_view_cooldown t ts uid cd)) = false ->
  snd (check_view_cooldown t ts uid cd) = cd.
Proof.
  unfold check_view_cooldown. destruct (cd !! uid); [|discriminate].
  destruct (flt _ _); [reflexivity | discriminate].
Qed.

Lemma check_allowed_inv (t ts : Q) (uid : Z) (cd : gmap Z Q) :
  fst (fst (check_view_cooldown t ts uid cd)) = true ->
  check_view_cooldown t ts uid cd
  = ((true, 0), _cleanup_old_cooldowns ts (<[uid := t]> cd)).
Proof.
  unfold check_view_cooldown. destruct (cd !! uid); [|reflexivity].
  destruct (flt _ _); [discriminate | reflexivity].
Qed.

(** X11: a call never changes the timestamp of another user: it can only
    drop it, and only once it is more than 10 s old at the sweep. *)
Theorem cooldown_frame (t ts : Q) (uid other : Z) (cd : gmap Z Q) :
  other <> uid ->
  let cd' := snd (check_view_cooldown t ts uid cd) in
  (forall x, cd' !! other = Some x -> cd !! other = Some x)
  /\ (forall x, cd !! other = Some x -> (ts - x <= 10)%Q ->
                cd' !! other = Some x).
Proof.
  intros Hne cd'. subst cd'.
  destruct (fst (fst (check_view_cooldown t ts uid cd))) eqn:E.
  - rewrite (check_allowed_inv _ _ _ _ E). cbn [snd].
    unfold _cleanup_old_cooldowns. split; intros x.
    + intros [Hl _]%map_lookup_filter_Some.
      now rewrite lookup_insert_ne in Hl by congruence.
    + intros Hl Hx. apply map_lookup_filter_Some. split.
      * now rewrite lookup_insert_ne by congruence.
      * simpl. now apply flt_false.
  - rewrite (check_denied_inv _ _ _ _ E). tauto.
Qed.

Lemma cooldown_frame_witness :
  let cd : gmap Z Q := {[ 7 := 0%Q ]} in
  snd (check_view_cooldown 8 8 9 cd) !! 7 = Some 0%Q.
Proof.
  intros cd.
  apply (proj2 (cooldown_frame 8 8 9 7 cd ltac:(lia)) 0%Q);
    [reflexivity | vm_compute; discriminate].
Defined.

(** X12: after an allowed call at time [t], a call of the same user at
    [t'] with [t <= t' < t + 5] is denied and leaves the map alone, and a
    call at [t' >= t + 5] is allowed again. *)
Theorem cooldown_two_calls (t ts t' ts' : Q) (uid : Z) (cd : gmap Z Q) :
  fst (fst (check_view_cooldown t ts uid cd)) = true ->
  (ts - t <= 10)%Q ->
  let cd1 := snd (check_view_cooldown t ts uid cd) in
  ((t' - t < 5)%Q ->
   fst (fst (check_view_cooldown t' ts' uid cd1)) = false
   /\ snd (check_view_cooldown t' ts' uid cd1) = cd1)
  /\ ((5 <= t' - t)%Q ->
      fst (check_view_cooldown t' ts' uid cd1) = (true, 0)).
Proof.
  intros Hal Hs cd1.
  assert (Hl : cd1 !! uid = Some t).
  { subst cd1. rewrite (check_allowed_inv _ _ _ _ Hal). cbn [snd].
    now apply cooldown_sweep_keeps. }
  split.
  - intros Hw. now rewrite (cooldown_deny uid cd1 t' ts' t Hl Hw).
  - intros Hw. now rewrite (cooldown_allow_later uid cd1 t' ts' t Hl Hw).
Qed.

Lemma cooldown_two_calls_witness :
  let cd0 : gmap Z Q := ∅ in
  let cd1 := snd (check_view_cooldown 100 100 7 cd0) in
  fst (fst (check_view_cooldown 103 103 7 cd1)) = false
  /\ fst (check_view_cooldown 105 105 7 cd1) = (true, 0).
Proof.
  intros cd0 cd1.
  assert (H0 : fst (fst (check_view_cooldown 100 100 7 cd0)) = true)
    by reflexivity.
  destruct (cooldown_two_calls 100 100 103 103 7 cd0 H0) as [Hd _];
    [vm_compute; discriminate|].
  destruct (cooldown_two_calls 100 100 105 105 7 cd0 H0) as [_ Ha];
    [vm_compute; discriminate|].
  split.
  - apply Hd. reflexivity.
  - apply Ha. vm_compute. discriminate.
Defined.

(** * More about the reveal handler *)

(** X13: a rate-limited reveal touches nothing: the handler answers with
    the cooldown notice (followed by the error notice when that answer
    raises) and both dicts are left exactly as they were (no sweep, no
    eviction, no new timestamp). *)
Theorem reveal_rate_limited (e : env) (b : bot_client) (t1 t2 t3 t4 : Q)
  (id : str) (cb : callback) (st : state) :
  bot e = Some b ->
  fst (fst (check_view_cooldown t1 t2 (cb_user_id cb) (view_cooldowns st)))
  = false ->
  exists remaining,
    whisper_callback_handler e t1 t2 t3 t4 id cb st
    = (Answer (NCooldown remaining) true
       :: (if raised (cb_answer cb (NCooldown remaining) true)
           then [Answer NError true] else []),
       st).
Proof.
  intros Hb Hden. rewrite (handler_with_bot e b) by exact Hb. cbv zeta.
  rewrite Hden, (check_denied_inv _ _ _ _ Hden). simpl negb. cbv iota.
  eexists. rewrite on_error_answer. now destruct st.
Qed.

Lemma reveal_rate_limited_witness :
  let w := mkWhisper 7 (Some 9) (lit "bob") (lit "hi") 0 (0 + TTL)%Q in
  let st := mkState [(lit "a", w)] {[ 9 := 100%Q ]} in
  exists remaining,
    whisper_callback_handler env_plain 102 102 102 102 (lit "a")
      (mkCallback 9 None None) st
    = ([Answer (NCooldown remaining) true], st).
Proof.
  intros w st.
  destruct (reveal_rate_limited env_plain bot_plain 102 102 102 102 (lit "a")
              (mkCallback 9 None None) st eq_refl eq_refl) as [r Hr].
  exists r. exact Hr.
Defined.

(** X14: every reveal that passes the gate stamps the requester, whatever
    comes next (whisper not found, no access, or shown). *)
Theorem reveal_stamps (e : env) (b : bot_client) (t1 t2 t3 t4 : Q)
  (id : str) (cb : callback) (st : state) :
  bot e = Some b ->
  gate_open t1 t2 cb st ->
  (t2 - t1 <= 10)%Q ->
  view_cooldowns (snd (whisper_callback_handler e t1 t2 t3 t4 id cb st))
    !! cb_user_id cb = Some t1.
Proof.
  intros Hb Hopen Hs. rewrite (handler_with_bot e b) by exact Hb. cbv zeta.
  unfold gate_open in Hopen. rewrite Hopen. simpl negb. cbv iota.
  assert (Hcd : snd (check_view_cooldown t1 t2 (cb_user_id cb)
                       (view_cooldowns st)) !! cb_user_id cb = Some t1).
  { rewrite (check_allowed_inv _ _ _ _ Hopen). cbn [snd].
    now apply cooldown_sweep_keeps. }
  destruct (fst (get_whisper_by_id _ _ _ _)); [|exact Hcd].
  now destruct (negb _ && negb _).
Qed.

Lemma reveal_stamps_witness :
  view_cooldowns
    (snd (whisper_callback_handler env_plain 5 5 5 5 (lit "nope")
            (mkCallback 9 None None) init_state)) !! 9 = Some 5%Q.
Proof.
  apply (reveal_stamps env_plain bot_plain); [reflexivity | reflexivity |].
  vm_compute. discriminate.
Defined.

Lemma only_rebinds_get (t1 t2 : Q) (id : str) (c : cache) :
  forall kv, In kv (snd (get_whisper_by_id t1 t2 id c)) -> In kv c.
Proof.
  intros kv. unfold get_whisper_by_id.
  assert (Hsub : In kv (snd (_cleanup_expired_whispers t1 c)) -> In kv c)
    by (intros [H _]%filter_In; exact H).
  destruct (cache_get id _) as [w|]; [|exact Hsub].
  destruct (flt _ _); [|exact Hsub]. intros H%In_cache_del. auto.
Qed.

(** X15: a reveal never adds a whisper and never changes the sender, the
    handle, the text or the times of one: every entry of the cache after
    the reveal is an entry from before, up to its recipient id. *)
Theorem reveal_only_rebinds (e : env) (t1 t2 t3 t4 : Q) (id : str)
  (cb : callback) (st : state) :
  only_rebinds (whispers_cache st)
    (whispers_cache (snd (whisper_callback_handler e t1 t2 t3 t4 id cb st))).
Proof.
  intros k w' Hin.
  destruct (handler_cache e t1 t2 t3 t4 id cb st) as [E | [E | (w & Hg & E)]];
    rewrite E in Hin.
  - exists w'. auto.
  - exists w'. split; [|now left]. now apply only_rebinds_get in Hin.
  - apply In_cache_set in Hin as [[= -> ->]|Hin].
    + exists w. split; [now apply get_found in Hg|].
      right. apply authorize_same_but_recipient.
    + exists w'. split; [|now left]. now apply only_rebinds_get in Hin.
Qed.

Lemma on_error_answer_head cb n show_alert :
  exists rest, on_error cb (answer cb n show_alert) = Answer n show_alert :: rest.
Proof. rewrite on_error_answer. now eexists. Qed.

(** X16: a requester who is refused access is not written into the
    whisper: when the first answer is the no-access notice, the cache is
    left as the read left it. *)
Theorem reveal_denied_unbound (e : env) (b : bot_client) (t1 t2 t3 t4 : Q)
  (id : str) (cb : callback) (st : state) :
  bot e = Some b ->
  (exists rest,
     fst (whisper_callback_handler e t1 t2 t3 t4 id cb st)
     = Answer NNoAccess true :: rest) ->
  whispers_cache (snd (whisper_callback_handler e t1 t2 t3 t4 id cb st))
  = snd (get_whisper_by_id t3 t4 id (whispers_cache st)).
Proof.
  intros Hb. rewrite (handler_with_bot e b) by exact Hb. cbv zeta.
  destruct (negb (fst (fst (check_view_cooldown _ _ _ _)))).
  { cbn [fst]. rewrite on_error_answer. intros [rest H]. discriminate H. }
  destruct (fst (get_whisper_by_id _ _ _ _)) as [w|] eqn:Eg.
  2:{ cbn [fst]. rewrite on_error_answer. intros [rest H]. discriminate H. }
  apply get_found in Eg as (Hg & _ & _).
  destruct (negb (fst (fst (authorize e cb w)))
            && negb (snd (fst (authorize e cb w)))) eqn:Esel.
  - intros _. cbn [snd whispers_cache].
    apply andb_true_iff in Esel as [Er _]. apply negb_true_iff in Er.
    destruct (authorize_cases e cb w) as [E|(_ & _ & Ht)]; [|congruence].
    rewrite E. now apply cache_set_get.
  - cbn [fst]. intros [rest Hp]. exfalso.
    destruct (on_error_shows cb _ _ (present_shows e b cb
                (snd (fst (authorize e cb w))) (snd (authorize e cb w))))
      as [rest' [(s0 & cp & H)|(tg & s0 & cp & H)]];
      rewrite H in Hp; discriminate Hp.
Qed.

Lemma reveal_denied_unbound_witness :
  let w := mkWhisper 7 None (lit "bob") (lit "hi") 0 (0 + TTL)%Q in
  let st := mkState [(lit "a", w)] ∅ in
  whispers_cache
    (snd (whisper_callback_handler env_plain 5 5 5 5 (lit "a")
            (mkCallback 9 (Some (lit "eve")) None) st))
  = [(lit "a", w)].
Proof.
  intros w st.
  apply (reveal_denied_unbound env_plain bot_plain 5 5 5 5 (lit "a")
           (mkCallback 9 (Some (lit "eve")) None) st); [reflexivity|].
  now exists [].
Defined.

(** X17: a reveal can be repeated: when an authorized requester reveals a
    whisper again (the gate open again, the clock not past the expiry),
    the handler does exactly what it did the first time. *)
Theorem reveal_again (e : env) (b : bot_client) (st : state) (id : str)
  (w : whisper) (cb : callback) (t1 t2 t3 t4 u1 u2 u3 u4 : Q) :
  bot e = Some b ->
  gate_open t1 t2 cb st ->
  fst (get_whisper_by_id t3 t4 id (whispers_cache st)) = Some w ->
  fst (fst (authorize e cb w)) || snd (fst (authorize e cb w)) = true ->
  let r := whisper_callback_handler e t1 t2 t3 t4 id cb st in
  gate_open u1 u2 cb (snd r) ->
  (u3 <= expires_at w)%Q -> (u4 <= expires_at w)%Q ->
  fst (whisper_callback_handler e u1 u2 u3 u4 id cb (snd r)) = fst r
  /\ whispers_cache
       (snd (whisper_callback_handler e u1 u2 u3 u4 id cb (snd r)))
     = snd (_cleanup_expired_whispers u3 (whispers_cache (snd r))).
Proof.
  intros Hb Hopen Hg Hauth. cbv zeta.
  assert (Hr : whisper_callback_handler e t1 t2 t3 t4 id cb st
               = (on_error cb
                    (present e b cb (snd (fst (authorize e cb w)))
                       (snd (authorize e cb w))),
                  mkState
                    (cache_set id (snd (authorize e cb w))
                       (snd (get_whisper_by_id t3 t4 id (whispers_cache st))))
                    (snd (check_view_cooldown t1 t2 (cb_user_id cb)
                            (view_cooldowns st))))).
  { rewrite (handler_with_bot e b) by exact Hb. cbv zeta.
    unfold gate_open in Hopen. rewrite Hopen, Hg. simpl negb. cbv iota.
    destruct (fst (fst (authorize e cb w))), (snd (fst (authorize e cb w)));
      try discriminate; reflexivity. }
  rewrite Hr. cbn [fst snd]. intros Hopen2 H3 H4.
  set (w' := snd (authorize e cb w)) in *.
  set (c1 := snd (get_whisper_by_id t3 t4 id (whispers_cache st))) in *.
  assert (Hexp : expires_at w' = expires_at w).
  { subst w'. now destruct (authorize_same_but_recipient e cb w)
      as (_ & _ & _ & _ & ->). }
  assert (Hauth2 : authorize e cb w'
                   = ((true, snd (fst (authorize e cb w))), w')
                   \/ authorize e cb w' = (fst (authorize e cb w), w')).
  { subst w'. destruct (authorize_cases e cb w) as [E|(_ & E & _)].
    - right. rewrite E. destruct (authorize e cb w) as [p w2].
      simpl in E. now subst.
    - left. rewrite E.
      rewrite (authorize_bound e cb (bind_recipient (cb_user_id cb) w)
                 (cb_user_id cb) eq_refl).
      rewrite bool_decide_eq_true_2 by reflexivity.
      now rewrite authorize_is_sender. }
  rewrite (handler_with_bot e b) by exact Hb. cbv zeta.
  unfold gate_open in Hopen2. cbn [view_cooldowns whispers_cache] in *.
  rewrite Hopen2. simpl negb. cbv iota.
  rewrite (get_live u3 u4 id _ w' (cache_get_set_same id w' c1))
    by (rewrite Hexp; assumption).
  cbn [fst snd].
  assert (Hback : cache_set id w' (snd (_cleanup_expired_whispers u3
                                          (cache_set id w' c1)))
                  = snd (_cleanup_expired_whispers u3 (cache_set id w' c1))).
  { apply cache_set_get. apply cache_get_filter_keep;
      [apply cache_get_set_same|].
    simpl. apply negb_true_iff, flt_false. now rewrite Hexp. }
  destruct Hauth2 as [E|E]; rewrite E; cbn [fst snd]; rewrite Hback.
  - now split.
  - destruct (fst (fst (authorize e cb w))), (snd (fst (authorize e cb w)));
      try discriminate; now split.
Qed.

Lemma reveal_again_witness :
  let w := mkWhisper 7 None (lit "bob") (lit "hi") 0 (0 + TTL)%Q in
  let st := mkState [(lit "a", w)] ∅ in
  let cb := mkCallback 9 (Some (lit "Bob")) None in
  let r := whisper_callback_handler env_plain 5 5 5 5 (lit "a") cb st in
  fst r = [Answer (NReveal false Unknown (lit "hi")) true]
  /\ fst (whisper_callback_handler env_plain 10 10 10 10 (lit "a") cb (snd r))
     = fst r.
Proof.
  intros w st cb r. split; [reflexivity|].
  apply (reveal_again env_plain bot_plain st (lit "a") w cb
           5 5 5 5 10 10 10 10);
    try reflexivity; vm_compute; discriminate.
Defined.

(** * The callback data *)

Lemma remove_all_go_skip (old a s : str) :
  remove_all_go old (a ++ s) (length a) = remove_all_go old s 0.
Proof. induction a as [|x a IH]; simpl; auto. Qed.

Lemma remove_all_go_clean (old : str) (c0 : ascii) (s : str) :
  (exists rest, old = c0 :: rest) -> ~ In c0 s ->
  remove_all_go old s 0 = s.
Proof.
  intros [rest ->] Hn. induction s as [|x s IH]; [reflexivity|].
  simpl in Hn. cbn [remove_all_go startswith].
  destruct (Ascii.eqb_spec c0 x) as [->|Hx]; [tauto|].
  simpl. f_equal. apply IH. tauto.
Qed.

(** X18: the data of the view button decodes to the whisper id it was
    built from, for every id without the letter [w] (a uuid holds hex
    digits and dashes only); data that is absent, empty or does not start
    with the prefix makes the handler return without any effect. *)
Theorem callback_data_roundtrip (e : env) (t1 t2 t3 t4 : Q) (id : str)
  (data : option str) (cb : callback) (st : state) :
  (~ In "w"%char id ->
   callback_whisper_id (Some (callback_data_of id)) = Some id
   /\ whisper_callback_entry e t1 t2 t3 t4 (Some (callback_data_of id)) cb st
      = whisper_callback_handler e t1 t2 t3 t4 id cb st)
  /\ (match data with
      | Some d => startswith d VIEW_PREFIX = false
      | None => True
      end ->
      whisper_callback_entry e t1 t2 t3 t4 data cb st = ([], st)).
Proof.
  split.
  - intros Hw.
    assert (Hid : callback_whisper_id (Some (callback_data_of id)) = Some id).
    { unfold callback_whisper_id, callback_data_of.
      change (truthy_str (Some (VIEW_PREFIX ++ id)))
        with (Some (VIEW_PREFIX ++ id)).
      cbv beta iota.
      rewrite PyStrFacts.startswith_app. f_equal. unfold remove_all.
      change (VIEW_PREFIX ++ id)
        with ("w"%char :: (lit "hisper_view_" ++ id)).
      cbn [remove_all_go].
      change (startswith ("w"%char :: lit "hisper_view_" ++ id) VIEW_PREFIX)
        with (startswith (VIEW_PREFIX ++ id) VIEW_PREFIX).
      rewrite PyStrFacts.startswith_app.
      change (length VIEW_PREFIX - 1)%nat with (length (lit "hisper_view_")).
      rewrite remove_all_go_skip.
      apply (remove_all_go_clean VIEW_PREFIX "w"%char); [now eexists | exact Hw]. }
    split; [exact Hid|].
    unfold whisper_callback_entry. rewrite Hid.
    destruct (bot e) eqn:Hb; [reflexivity|].
    now rewrite handler_without_bot.
  - intros Hd. unfold whisper_callback_entry, callback_whisper_id.
    destruct (bot e); [|reflexivity].
    destruct data as [[|x d]|]; [reflexivity| |reflexivity].
    cbn [truthy_str]. now rewrite Hd.
Qed.

Lemma callback_data_roundtrip_witness :
  callback_whisper_id
    (Some (callback_data_of (lit "3f2b8c1e-9d4a-4e7b-8f10-2a6c5d9e0b71")))
  = Some (lit "3f2b8c1e-9d4a-4e7b-8f10-2a6c5d9e0b71")
  /\ whisper_callback_entry env_plain 1 1 1 1 (Some (lit "other_button"))
       (mkCallback 9 None None) init_state = ([], init_state).
Proof.
  split.
  - apply (callback_data_roundtrip env_plain 1 1 1 1 _ None
             (mkCallback 9 None None) init_state).
    no_marker.
  - apply (callback_data_roundtrip env_plain 1 1 1 1 [] _
             (mkCallback 9 None None) init_state).
    reflexivity.
Defined.

(** * The parsing of the inline handler *)

(** The scan on a string whose last marker is known. *)
Lemma adhoc_at_marker (m h : str) :
  ~ In AT h ->
  adhoc_scan (m ++ AT :: h) =
  if truthy (strip m) && truthy (strip h)
     && truthy (recipient_of_part (strip h))
  then Some (strip m, recipient_of_part (strip h))
  else None.
Proof.
  intros Hh. unfold adhoc_scan.
  assert (Htr : truthy (m ++ AT :: h) = true) by now destruct m.
  assert (Hmem : mem_char AT (m ++ AT :: h) = true).
  { apply PyStrMore.mem_char_In, in_or_app. right. now left. }
  rewrite Htr, Hmem, PyStrFacts.rfind_last by exact Hh. cbn [andb].
  destruct m as [|x m]; [reflexivity|].
  assert (Hpos : (len (x :: m) >? 0) = true)
    by (apply Z.gtb_lt; unfold len; simpl length; lia).
  rewrite Hpos, PyStrFacts.firstn_len_app.
  assert (Hsk : slice_from ((x :: m) ++ AT :: h) (len (x :: m) + 1) = h).
  { replace (len (x :: m) + 1) with (len ((x :: m) ++ [AT]))
      by (unfold len; rewrite length_app; simpl; lia).
    replace ((x :: m) ++ AT :: h) with (((x :: m) ++ [AT]) ++ h)
      by (now rewrite <- app_assoc).
    apply PyStrFacts.skipn_len_app. }
  rewrite Hsk.
  destruct (truthy (strip (x :: m))), (truthy (strip h)),
    (truthy (recipient_of_part (strip h))); reflexivity.
Qed.

Lemma mention_remaining_form (q B r : str) :
  bot_mention_remaining q B = Some r ->
  exists n, r = strip (skipn n (strip q)).
Proof.
  unfold bot_mention_remaining, slice_from.
  destruct (negb (truthy q)); [discriminate|].
  destruct (startswith _ (AT :: lower B)).
  - destruct (startswith _ (AT :: B)); intros [= <-]; now eexists.
  - destruct (startswith _ (lower B)); [|discriminate].
    destruct (startswith _ B); intros [= <-]; now eexists.
Qed.

(** A non-empty remainder of a stripped query is an end of the query. *)
Lemma stripped_tail (q : str) (n : nat) :
  strip q = q -> strip (skipn n q) <> [] ->
  exists pre, q = pre ++ strip (skipn n q).
Proof.
  intros Hq Hne.
  destruct (PyStrMore.dropwhile_suffix isspace (skipn n q)) as [pre2 Hs].
  assert (Hl : dropwhile isspace (skipn n q) <> []).
  { intros E. apply Hne. unfold strip, lstrip_by. now rewrite E. }
  assert (Hq2 : q = (firstn n q ++ pre2) ++ dropwhile isspace (skipn n q)).
  { rewrite <- app_assoc, <- Hs. symmetry. apply firstn_skipn. }
  exists (firstn n q ++ pre2). unfold strip, lstrip_by.
  rewrite (PyStrMore.rstrip_of_suffix isspace (firstn n q ++ pre2)); auto.
  rewrite <- Hq2. now apply PyStrMore.rstrip_of_stripped.
Qed.

Lemma parse_implies_scan (q B t h : str) :
  strip q = q ->
  _parse_whisper_query q B = Some (t, h) ->
  exists t', adhoc_scan q = Some (t', h).
Proof.
  intros Hq. unfold _parse_whisper_query.
  destruct (bot_mention_remaining q B) as [r|] eqn:Er; [|discriminate].
  intros (a & b & Hr & Hb & -> & Ht & Hsb & -> & Hh)%split_at_last_marker_Some.
  apply mention_remaining_form in Er as [n En]. rewrite Hq in En.
  destruct (stripped_tail q n Hq) as [pre Hpre].
  { rewrite <- En, Hr. now destruct a. }
  rewrite <- En, Hr in Hpre.
  exists (strip (pre ++ a)).
  rewrite Hpre, app_assoc, adhoc_at_marker by exact Hb.
  assert (H1 : truthy (strip (pre ++ a)) = true).
  { destruct (strip (pre ++ a)) eqn:E; [|reflexivity].
    exfalso. apply PyStrMore.strip_nil_iff in E.
    rewrite forallb_app in E. apply andb_true_iff in E as [_ E].
    apply PyStrMore.strip_nil_iff in E. congruence. }
  assert (H2 : truthy (strip b) = true).
  { destruct (strip b) as [|c s] eqn:E; [exfalso; now apply Hsb | reflexivity]. }
  assert (H3 : truthy (recipient_of_part (strip b)) = true).
  { destruct (recipient_of_part (strip b)) as [|c s] eqn:E;
      [exfalso; now apply Hh | reflexivity]. }
  now rewrite H1, H2, H3.
Qed.

Lemma inline_parse_scan (query bot_username : str) :
  inline_parse (strip query) bot_username = adhoc_scan (strip query).
Proof.
  unfold inline_parse.
  destruct (adhoc_scan (strip query)) as [p|] eqn:Es; [reflexivity|].
  destruct (_parse_whisper_query (strip query) bot_username) as [[t h]|] eqn:Ep;
    [|reflexivity].
  apply parse_implies_scan in Ep as [t' Ht']; [|apply PyStrFacts.strip_idem].
  congruence.
Qed.

(** X19: in the inline handler the parser [_parse_whisper_query] never
    decides anything: on the stripped query the handler works with,
    whenever the parser would return a result the scan of lines 246-258
    has already returned one, so the parsed pair is always the scan's. *)
Theorem inline_parse_is_scan (query bot_username : str) :
  inline_parse (strip query) bot_username = adhoc_scan (strip query)
  /\ (forall t h,
        _parse_whisper_query (strip query) bot_username = Some (t, h) ->
        exists t', adhoc_scan (strip query) = Some (t', h)).
Proof.
  split; [apply inline_parse_scan|].
  intros t h. apply parse_implies_scan, PyStrFacts.strip_idem.
Qed.

Lemma inline_parse_is_scan_witness :
  _parse_whisper_query (strip (lit " @mybot hi @bob ")) (lit "mybot")
    = Some (lit "hi", lit "bob")
  /\ inline_parse (strip (lit " @mybot hi @bob ")) (lit "mybot")
     = Some (lit "@mybot hi", lit "bob").
Proof.
  split; [reflexivity|].
  rewrite (proj1 (inline_parse_is_scan (lit " @mybot hi @bob ") (lit "mybot"))).
  destruct (proj2 (inline_parse_is_scan (lit " @mybot hi @bob ") (lit "mybot"))
              (lit "hi") (lit "bob") eq_refl) as [t' Ht'].
  reflexivity.
Defined.

Lemma strip_snoc_space (s : str) : strip (s ++ lit " ") = strip s.
Proof.
  destruct (strip s) as [|c r] eqn:E.
  - apply PyStrMore.strip_nil_iff. rewrite forallb_app.
    apply PyStrMore.strip_nil_iff in E. now rewrite E.
  - rewrite <- E. unfold strip, lstrip_by.
    rewrite PyStrFacts.dropwhile_app_keep.
    + now apply PyStrFacts.rstrip_by_snoc_drop.
    + intros E'. unfold strip, lstrip_by in E. rewrite E' in E. discriminate.
Qed.

(** X20: the inline handler keeps the self-mention in the text: whatever
    the bot's name, it parses [P + " " + T + " @" + H] to the trimmed
    [P + " " + T] and [H] (for a one-word handle without marker and
    trailing punctuation), not to [(T, H)]. *)
Theorem inline_parse_keeps_mention (P T H B : str) :
  strip (P ++ lit " " ++ T) <> [] ->
  H <> [] -> one_word H -> ~ In AT H -> rstrip_chars PUNCT H = H ->
  inline_parse (strip (addressed P T H)) B
  = Some (strip (P ++ lit " " ++ T), H).
Proof.
  intros Hm Hne Hw Hno Hp. rewrite inline_parse_scan.
  set (M := P ++ lit " " ++ T) in *.
  assert (Hadd : addressed P T H = (M ++ lit " ") ++ AT :: H).
  { unfold addressed. subst M. now rewrite <- !app_assoc. }
  assert (HsM : strip (M ++ lit " ") = strip M) by apply strip_snoc_space.
  assert (Hl : lstrip_by isspace (M ++ lit " ") <> []).
  { apply PyStrFacts.strip_nonnil_lstrip. now rewrite HsM. }
  assert (Hs : strip (addressed P T H)
               = lstrip_by isspace (M ++ lit " ") ++ AT :: H).
  { rewrite Hadd. unfold strip at 1. unfold lstrip_by in *.
    rewrite PyStrFacts.dropwhile_app_keep by exact Hl.
    change (dropwhile isspace (M ++ lit " ") ++ AT :: H)
      with (dropwhile isspace (M ++ lit " ") ++ [AT] ++ H).
    rewrite app_assoc. apply (rstrip_keeps_H H Hne Hw). }
  rewrite Hs, adhoc_at_marker by exact Hno.
  rewrite PyStrFacts.strip_lstrip, HsM, (strip_H T H Hne Hw Hno Hp).
  unfold recipient_of_part. rewrite PyStrFacts.split_word by assumption.
  rewrite Hp.
  destruct (strip M) as [|c s] eqn:E; [exfalso; now apply Hm|].
  now destruct H.
Qed.

Lemma inline_parse_keeps_mention_witness :
  inline_parse (strip (lit "@mybot hello there @bob")) (lit "mybot")
  = Some (lit "@mybot hello there", lit "bob").
Proof.
  apply (inline_parse_keeps_mention (lit "@mybot") (lit "hello there")
           (lit "bob") (lit "mybot")).
  - discriminate.
  - discriminate.
  - reflexivity.
  - no_marker.
  - reflexivity.
Defined.

(** * The time left shown in the inbox *)

Lemma Qfloor_bounds (y : Q) :
  (inject_Z (Qfloor y) <= y)%Q /\ (y < inject_Z (Qfloor y) + 1)%Q.
Proof.
  split; [apply Qfloor_le|].
  pose proof (Qlt_floor y) as H. now rewrite inject_Z_plus in H.
Qed.

Lemma inject_Z_range (n : Z) (lo hi : Z) :
  (inject_Z lo - 1 < inject_Z n)%Q -> (inject_Z n < inject_Z hi)%Q ->
  lo <= n < hi.
Proof.
  intros H1 H2.
  assert (H1' : (inject_Z (lo - 1) < inject_Z n)%Q).
  { unfold Z.sub. rewrite inject_Z_plus. exact H1. }
  rewrite <- Zlt_Qlt in H1', H2. lia.
Qed.

(** X21: for a whisper that has not expired, the hours and minutes shown
    are whole, the minutes lie in [0,59], the shown time is at most the
    real time left and less than a minute short of it; a whisper with at
    most three hours left shows at most 3 hours. *)
Theorem time_left_bounds (expires now : Q) :
  (now <= expires)%Q ->
  let h := fst (time_left expires now) in
  let m := snd (time_left expires now) in
  let x := (expires - now)%Q in
  0 <= h /\ 0 <= m <= 59
  /\ (3600 * inject_Z h + 60 * inject_Z m <= x)%Q
  /\ (x < 3600 * inject_Z h + 60 * inject_Z m + 60)%Q
  /\ ((x <= 10800)%Q -> h <= 3).
Proof.
  intros Hx. cbv zeta. unfold time_left. cbn [fst snd].
  set (x := (expires - now)%Q).
  assert (Hx0 : (0 <= x)%Q) by (subst x; lra).
  set (y := (x / 3600)%Q).
  assert (Hy : (x == 3600 * y)%Q) by (subst y; field).
  assert (Hy0 : (0 <= y)%Q) by lra.
  rewrite (py_int_floor y Hy0).
  destruct (Qfloor_bounds y) as [Hf1 Hf2].
  unfold py_mod. fold y.
  set (pm := (x - 3600 * inject_Z (Qfloor y))%Q).
  set (z := (pm / 60)%Q).
  assert (Hz : (pm == 60 * z)%Q) by (subst z; field).
  assert (Hpm : (0 <= pm)%Q /\ (pm < 3600)%Q) by (subst pm; split; lra).
  assert (Hz0 : (0 <= z)%Q) by lra.
  rewrite (py_int_floor z Hz0).
  destruct (Qfloor_bounds z) as [Hg1 Hg2].
  assert (Hh0 : 0 <= Qfloor y).
  { apply (inject_Z_range (Qfloor y) 0 (Qfloor y + 1)).
    - change (inject_Z 0) with 0%Q. lra.
    - rewrite inject_Z_plus. change (inject_Z 1) with 1%Q. lra. }
  assert (Hm : 0 <= Qfloor z < 60).
  { apply inject_Z_range.
    - change (inject_Z 0) with 0%Q. lra.
    - change (inject_Z 60) with 60%Q. lra. }
  split; [exact Hh0|]. split; [lia|]. split; [subst pm; lra|].
  split; [subst pm; lra|].
  intros H3.
  assert (Hlt : 0 <= Qfloor y < 4).
  { apply inject_Z_range.
    - change (inject_Z 0) with 0%Q. lra.
    - change (inject_Z 4) with 4%Q. lra. }
  lia.
Qed.

Lemma time_left_bounds_witness :
  time_left (10800 # 1) (3601 # 2) = (2, 29)
  /\ 0 <= snd (time_left (10800 # 1) (3601 # 2)) <= 59
  /\ fst (time_left (10800 # 1) (3601 # 2)) <= 3.
Proof.
  split; [reflexivity|].
  destruct (time_left_bounds (10800 # 1) (3601 # 2)) as (_ & Hm & _ & _ & Hh);
    [vm_compute; discriminate|].
  split; [exact Hm|]. apply Hh. vm_compute. discriminate.
Defined.

(** * The inline handler *)

Lemma inline_cache_cases e me uuid tc ts tl ti iq c :
  let c' := snd (inline_query_handler e me uuid tc ts tl ti iq c) in
  c' = c
  \/ (exists h t, c' = snd (create_whisper e uuid tc (iq_user_id iq) h t c))
  \/ c' = snd (_cleanup_expired_whispers ts c).
Proof.
  cbv zeta. unfold inline_query_handler.
  destruct (bot e); [|now left].
  destruct me as [name|]; [|now left].
  destruct (truthy_str name) as [B|]; [|now left].
  destruct (inline_parse _ B) as [[t h]|].
  - destruct (len t >? WHISPER_MAX_LENGTH); [now left|].
    right. left. exists h, t.
    destruct (create_whisper e uuid tc (iq_user_id iq) h t c) as [r c'].
    now destruct (truthy_str r).
  - destruct (negb _ || _); [now left|].
    destruct (existsb _ (map lower _)).
    + right. right. unfold get_whispers_for_user.
      now destruct (sort_desc _).
    + destruct (existsb _ _); now left.
Qed.

(** X22: an inline query changes the cache in one of three ways only: the
    cache afterwards is the cache before, or the cache before after the
    expiry sweep, or the cache before with one whisper written under the
    new id, sent by the requester, created at the clock value of the call,
    expiring three hours later and at most 1000 characters long.  The
    store invariant and the uniqueness of ids are kept, and every entry
    of the cache afterwards was there before or is the new one. *)
Theorem inline_handler_cache (e : env) (me : result (option str))
  (uuid : str) (tc ts tl : Q) (ti : nat -> Q) (iq : inline_query)
  (c : cache) :
  let c' := snd (inline_query_handler e me uuid tc ts tl ti iq c) in
  (c' = c
   \/ c' = snd (_cleanup_expired_whispers ts c)
   \/ exists rid h t,
        len t <= WHISPER_MAX_LENGTH
        /\ c' = cache_set uuid
                  (mkWhisper (iq_user_id iq) rid (lower h) t tc (tc + TTL)%Q)
                  c)
  /\ (store_ok c -> store_ok c')
  /\ (dict_ok c -> dict_ok c')
  /\ (forall id w, In (id, w) c' ->
        In (id, w) c
        \/ (id = uuid /\ sender_id w = iq_user_id iq /\ created_at w = tc
            /\ len (message_text w) <= WHISPER_MAX_LENGTH)).
Proof.
  cbv zeta.
  destruct (inline_cache_cases e me uuid tc ts tl ti iq c)
    as [-> | [(h & t & ->) | ->]].
  - split; [now left|]. repeat split; auto.
  - destruct (create_whisper e uuid tc (iq_user_id iq) h t c) as [[r|] c'] eqn:E.
    + pose proof (create_store_ok e uuid tc (iq_user_id iq) h t c) as Hso.
      rewrite E in Hso.
      apply create_success in E as (_ & Hl & rid & _ & ->). cbn [snd] in *.
      split; [right; right; now exists rid, h, t|].
      split; [exact Hso|]. split.
      * apply dict_ok_set.
      * intros id w [[= -> ->]|Hin]%In_cache_set; [right | now left].
        now repeat split.
    + pose proof (create_failure e uuid tc (iq_user_id iq) h t c) as Hf.
      rewrite E in Hf. specialize (Hf eq_refl). injection Hf as ->.
      cbn [snd]. split; [now left|]. repeat split; auto.
  - split; [right; now left|].
    split; [apply Forall_sweep|]. split; [apply dict_ok_filter|].
    intros id w [Hin _]%filter_In. now left.
Qed.

Lemma inline_handler_cache_witness :
  let iq := mkInline (lit "see you at five @bob") 7 None in
  let c' := snd (inline_query_handler env_plain (Ok (Some (lit "mybot")))
                   (lit "id-1") 3 3 3 (fun _ => 3%Q) iq []) in
  c' = [(lit "id-1",
         mkWhisper 7 None (lit "bob") (lit "see you at five") 3 (3 + TTL)%Q)]
  /\ store_ok c' /\ dict_ok c'.
Proof.
  intros iq c'. split; [reflexivity|].
  destruct (inline_handler_cache env_plain (Ok (Some (lit "mybot")))
              (lit "id-1") 3 3 3 (fun _ => 3%Q) iq []) as (_ & Hs & Hd & _).
  split; [apply Hs; constructor | apply Hd, dict_ok_nil].
Defined.

Lemma adhoc_scan_bare (P : str) :
  ~ In AT P -> adhoc_scan P = None /\ adhoc_scan (AT :: P) = None.
Proof.
  intros Hn. split.
  - unfold adhoc_scan.
    assert (Hm : mem_char AT P = false).
    { destruct (mem_char AT P) eqn:E; [|reflexivity].
      now apply PyStrMore.mem_char_In in E. }
    rewrite Hm. now rewrite andb_false_r.
  - unfold adhoc_scan.
    change (rfind AT (AT :: P)) with (rfind AT ([] ++ AT :: P)).
    rewrite (PyStrFacts.rfind_last AT [] P Hn).
    now destruct (truthy (AT :: P) && mem_char AT (AT :: P)).
Qed.

Lemma lower_no_marker (P B : str) :
  lower P = lower B -> ~ In AT B -> ~ In AT P.
Proof.
  intros Hl HB HP. apply HB.
  assert (Hin : In AT (lower B)).
  { rewrite <- Hl. unfold lower.
    change AT with (lower_char AT). now apply in_map. }
  unfold lower in Hin. apply in_map_iff in Hin as (c & Hc & Hin).
  apply PyStrFacts.lower_char_AT in Hc. now subst.
Qed.

Lemma inbox_items_length e ti i l : length (inbox_items e ti i l) = length l.
Proof.
  revert i. induction l as [|[k w] l IH]; intros i; [reflexivity|].
  cbn [inbox_items]. destruct (time_left (expires_at w) (ti i)).
  cbn [length]. now rewrite IH.
Qed.

(** X23: a query that is just the bot's name, in any case and with or
    without the marker, shows the requester's inbox: the articles of the
    first 50 whispers of [get_whispers_for_user] (the most recent ones),
    and the cache is left as that listing leaves it. *)
Theorem inline_bare_mention_inbox (e : env) (b : bot_client) (B P : str)
  (uuid : str) (tc ts tl : Q) (ti : nat -> Q) (iq : inline_query)
  (c : cache) :
  bot e = Some b ->
  B <> [] -> one_word B -> ~ In AT B ->
  lower P = lower B ->
  strip (iq_query iq) = P \/ strip (iq_query iq) = AT :: P ->
  let listing :=
    get_whispers_for_user ts tl (iq_user_id iq) (inline_username e iq) c in
  inline_query_handler e (Ok (Some B)) uuid tc ts tl ti iq c
  = (Results (inbox_items e ti 0 (firstn 50 (fst listing))), snd listing)
  /\ (length (inbox_items e ti 0 (firstn 50 (fst listing))) <= 50)%nat.
Proof.
  intros Hb HB Hw HnB Hl Hq listing. split.
  2:{ rewrite inbox_items_length. apply firstn_le_length. }
  pose proof (lower_no_marker P B Hl HnB) as HnP.
  destruct (adhoc_scan_bare P HnP) as [Hs1 Hs2].
  assert (HP : P <> []).
  { intros ->. destruct B; [congruence | discriminate]. }
  assert (HwP : forallb (fun x => negb (isspace x)) (lower P) = true).
  { rewrite Hl. unfold lower. rewrite forallb_forall. intros x Hx.
    apply in_map_iff in Hx as (y & <- & Hy).
    rewrite PyStrFacts.isspace_lower_char.
    unfold one_word in Hw. rewrite forallb_forall in Hw. auto. }
  unfold inline_query_handler. rewrite Hb.
  destruct B as [|b0 B0] eqn:EB; [congruence|]. cbn [truthy_str].
  rewrite <- EB in *.
  rewrite inline_parse_scan.
  set (q := strip (iq_query iq)) in *.
  assert (Hscan : adhoc_scan q = None) by (destruct Hq as [->| ->]; assumption).
  assert (Htq : truthy q = true).
  { destruct Hq as [->| ->]; [now destruct P | reflexivity]. }
  rewrite Hscan, Htq. cbn [negb orb].
  assert (Hlq : lower q = lower B \/ lower q = AT :: lower B).
  { destruct Hq as [->| ->]; [now left | right].
    change (lower (AT :: P)) with (AT :: lower P). now rewrite Hl. }
  assert (Hblank : existsb (str_eqb (lower q)) [[]; lit " "] = false).
  { cbn [existsb]. rewrite orb_false_r. apply orb_false_iff. split.
    - apply str_eqb_neq. destruct Hlq as [-> | ->]; [|discriminate].
      rewrite <- Hl. now destruct P.
    - apply str_eqb_neq. destruct Hlq as [E | E]; rewrite E; [|discriminate].
      rewrite <- Hl. intros E'. rewrite E' in HwP. discriminate. }
  rewrite Hblank.
  assert (Hvar : existsb (str_eqb (lower q))
                   (map lower (bot_mention_variants B)) = true).
  { unfold bot_mention_variants. cbn [map existsb].
    change (lower (AT :: B)) with (AT :: lower B).
    destruct Hlq as [-> | ->]; rewrite str_eqb_refl;
      now rewrite ?orb_true_r. }
  rewrite Hvar. subst listing.
  destruct (get_whispers_for_user _ _ _ _ _) as [[|kv l] c1]; reflexivity.
Qed.

Lemma inline_bare_mention_inbox_witness :
  let w1 := mkWhisper 7 (Some 9) (lit "bob") (lit "first") 10 (10 + TTL)%Q in
  let w2 := mkWhisper 7 None (lit "bob") (lit "second") 20 (20 + TTL)%Q in
  let c := [(lit "a", w1); (lit "b", w2)] in
  inline_query_handler env_plain (Ok (Some (lit "MyBot"))) (lit "id-1")
    40 40 40 (fun _ => 40%Q) (mkInline (lit " @mybot ") 9 (Some (lit "Bob"))) c
  = (Results [AInbox (lit "b") Unknown (lit "second") 2 59;
              AInbox (lit "a") Unknown (lit "first") 2 59], c).
Proof.
  intros w1 w2 c.
  apply (proj1 (inline_bare_mention_inbox env_plain bot_plain (lit "MyBot")
                  (lit "mybot") (lit "id-1") 40 40 40 (fun _ => 40%Q)
                  (mkInline (lit " @mybot ") 9 (Some (lit "Bob"))) c
                  eq_refl ltac:(discriminate) eq_refl ltac:(no_marker)
                  eq_refl (or_intror eq_refl))).
Defined.

(** X24: the guards of the inline handler: without a bot client, or when
    the bot has no username, the handler returns without answering; when
    [get_me] raises it answers with no results; a query that is empty or
    white space gets the help hint.  None of these touches the cache. *)
Theorem inline_guards (e : env) (b : bot_client) (B : str) (uuid : str)
  (tc ts tl : Q) (ti : nat -> Q) (iq : inline_query) (c : cache)
  (me : result (option str)) :
  (bot e = None ->
   inline_query_handler e me uuid tc ts tl ti iq c = (NoAnswer, c))
  /\ (bot e = Some b ->
      (inline_query_handler e Raise uuid tc ts tl ti iq c = (Results [], c))
      /\ (truthy_str (match me with Ok n => n | Raise => None end) = None ->
          me <> Raise ->
          inline_query_handler e me uuid tc ts tl ti iq c = (NoAnswer, c))
      /\ (B <> [] -> forallb isspace (iq_query iq) = true ->
          inline_query_handler e (Ok (Some B)) uuid tc ts tl ti iq c
          = (Results [AHelpHint], c))).
Proof.
  unfold inline_query_handler. split.
  - now intros ->.
  - intros ->. split; [reflexivity|]. split.
    + intros Hn Hr. destruct me as [n|]; [|congruence]. now rewrite Hn.
    + intros HB Hsp. destruct B as [|b0 B0]; [congruence|]. cbn [truthy_str].
      apply PyStrMore.strip_nil_iff in Hsp. rewrite Hsp. reflexivity.
Qed.

Lemma inline_guards_witness :
  inline_query_handler env_plain (Ok (Some (lit "mybot"))) (lit "id-1")
    1 1 1 (fun _ => 1%Q) (mkInline (lit "   ") 9 None) []
  = (Results [AHelpHint], []).
Proof.
  apply (proj2 (proj2 (proj2 (inline_guards env_plain bot_plain (lit "mybot")
                                (lit "id-1") 1 1 1 (fun _ => 1%Q)
                                (mkInline (lit "   ") 9 None) [] Raise)
                               eq_refl)));
    [discriminate | reflexivity].
Defined.

(** * Creation, listing and reveal together *)

Lemma listing_In (ts now : Q) (uid : Z) (uname : option str) (c : cache)
  (kv : str * whisper) :
  (ts <= now)%Q ->
  In kv (fst (get_whispers_for_user ts now uid uname c))
  <-> In kv c /\ listed now uid uname (snd kv) = true.
Proof.
  intros Hclock. unfold get_whispers_for_user. cbn [fst snd].
  unfold _cleanup_expired_whispers. cbn [snd].
  rewrite filter_twice. split.
  - intros Hin. apply (Permutation_in _ (sort_desc_perm _)) in Hin.
    apply filter_In in Hin as [Hin Hs].
    now rewrite (selected_listed ts now uid uname (snd kv) Hclock) in Hs.
  - intros [Hin Hl].
    apply (Permutation_in _ (Permutation_sym (sort_desc_perm _))).
    apply filter_In. split; [exact Hin|].
    now rewrite (selected_listed ts now uid uname (snd kv) Hclock).
Qed.

(** X25: a created whisper shows up in the recipient's listing until it
    expires: with a resolved recipient it is listed for that id; without
    one it is listed for whoever supplies the handle, in any case; from
    [t0 + 3h] on it is listed for nobody. *)
Theorem created_is_listed (e : env) (uuid : str) (t0 : Q) (sender : Z)
  (rname text : str) (c c' : cache) (ts now : Q) :
  dict_ok c ->
  create_whisper e uuid t0 sender rname text c = (Some uuid, c') ->
  (ts <= now)%Q ->
  exists w,
    cache_get uuid c' = Some w /\ message_text w = text
    /\ ((now < t0 + TTL)%Q ->
        (forall uid uname,
           recipient_id w = Some uid ->
           In (uuid, w) (fst (get_whispers_for_user ts now uid uname c')))
        /\ (forall uid h,
              recipient_id w = None -> h <> [] -> lower h = lower rname ->
              In (uuid, w)
                 (fst (get_whispers_for_user ts now uid (Some h) c'))))
    /\ ((t0 + TTL <= now)%Q ->
        forall uid uname w',
          ~ In (uuid, w') (fst (get_whispers_for_user ts now uid uname c'))).
Proof.
  intros Hd (_ & _ & rid & _ & ->)%create_success Hclock.
  set (w := mkWhisper sender rid (lower rname) text t0 (t0 + TTL)%Q).
  pose proof (cache_get_set_same uuid w c) as Hg.
  exists w. split; [exact Hg|]. split; [reflexivity|]. split.
  - intros Hlive.
    assert (Hfl : flt now (expires_at w) = true) by now apply flt_true.
    split.
    + intros uid uname Hr. apply listing_In; [exact Hclock|].
      split; [now apply cache_get_In|]. unfold listed. cbn [snd].
      rewrite Hfl, bool_decide_eq_true_2 by exact Hr. reflexivity.
    + intros uid h Hr Hh Hl. apply listing_In; [exact Hclock|].
      split; [now apply cache_get_In|]. unfold listed. cbn [snd].
      rewrite Hfl, Hr, Hl, str_eqb_refl.
      destruct h; [congruence|]. now rewrite orb_true_r.
  - intros Hdead uid uname w' Hin.
    apply listing_In in Hin as [Hin Hl]; [|exact Hclock].
    assert (w' = w) as ->.
    { apply (dict_ok_unique uuid w' w (cache_set uuid w c));
        [now apply dict_ok_set | exact Hin | now apply cache_get_In]. }
    unfold listed in Hl. cbn [snd] in Hl.
    apply andb_true_iff in Hl as [Hl _]. apply flt_true in Hl.
    simpl in Hl. lra.
Qed.

Lemma created_is_listed_witness :
  let c' := snd (create_whisper env_offline (lit "id-1") 0 7 (lit "Bob")
                   (lit "hi") []) in
  exists w,
    cache_get (lit "id-1") c' = Some w
    /\ In (lit "id-1", w)
         (fst (get_whispers_for_user 5 5 9 (Some (lit "BOB")) c')).
Proof.
  intros c'.
  destruct (created_is_listed env_offline (lit "id-1") 0 7 (lit "Bob")
              (lit "hi") [] c' 5 5 dict_ok_nil eq_refl)
    as (w & Hg & _ & Hlive & _); [vm_compute; discriminate|].
  exists w. split; [exact Hg|].
  destruct Hlive as [_ Hh]; [reflexivity|].
  apply Hh; [|discriminate | reflexivity].
  vm_compute in Hg. injection Hg as <-. reflexivity.
Defined.

(** X26: the sender keeps access: on every reveal by the whisper's sender
    that passes the gate and finds the whisper, bound or not, the handler
    runs the sender-facing presentation: its first call carries the text
    as stored (the alert, or the message of the long path), and it is
    never the no-access notice. *)
Theorem sender_keeps_access (e : env) (b : bot_client) (st : state)
  (id : str) (w : whisper) (cb : callback) (t1 t2 t3 t4 : Q) :
  bot e = Some b ->
  gate_open t1 t2 cb st ->
  fst (get_whisper_by_id t3 t4 id (whispers_cache st)) = Some w ->
  sender_id w = cb_user_id cb ->
  let w' := snd (authorize e cb w) in
  let effs := fst (whisper_callback_handler e t1 t2 t3 t4 id cb st) in
  effs = on_error cb (present e b cb true w')
  /\ message_text w' = message_text w
  /\ shows (message_text w) effs
  /\ forall rest, effs <> Answer NNoAccess true :: rest.
Proof.
  intros Hb Hopen Hg Hs w' effs.
  assert (Heff : effs = on_error cb (present e b cb true w')).
  { subst effs. rewrite (handler_with_bot e b) by exact Hb. cbv zeta.
    unfold gate_open in Hopen. rewrite Hopen, Hg. simpl negb. cbv iota.
    rewrite authorize_is_sender, Hs, Z.eqb_refl.
    now rewrite andb_false_r. }
  assert (Htext : message_text w' = message_text w).
  { subst w'. now destruct (authorize_same_but_recipient e cb w)
      as (_ & _ & -> & _). }
  assert (Hshow : shows (message_text w) effs).
  { rewrite Heff, <- Htext. apply on_error_shows, present_shows. }
  split; [exact Heff|]. split; [exact Htext|]. split; [exact Hshow|].
  intros rest E.
  destruct Hshow as [rest' [(s0 & cp & H)|(tg & s0 & cp & H)]];
    rewrite H in E; discriminate E.
Qed.

Lemma sender_keeps_access_witness :
  let w := mkWhisper 7 (Some 9) (lit "bob") (lit "hi") 0 (0 + TTL)%Q in
  let st := mkState [(lit "a", w)] ∅ in
  fst (whisper_callback_handler env_plain 5 5 5 5 (lit "a")
         (mkCallback 7 None None) st)
  = [Answer (NReveal true Unknown (lit "hi")) true].
Proof.
  intros w st.
  apply (proj1 (sender_keeps_access env_plain bot_plain st (lit "a") w
                  (mkCallback 7 None None) 5 5 5 5
                  eq_refl eq_refl eq_refl eq_refl)).
Defined.

(** X27: an expired whisper is never shown: a reveal that passes the gate
    with a clock value past the expiry answers with the not-found notice
    (followed by the error notice when that answer raises), and the
    whisper is gone from the cache afterwards. *)
Theorem reveal_expired (e : env) (b : bot_client) (st : state) (id : str)
  (w : whisper) (cb : callback) (t1 t2 t3 t4 : Q) :
  bot e = Some b ->
  dict_ok (whispers_cache st) ->
  gate_open t1 t2 cb st ->
  cache_get id (whispers_cache st) = Some w ->
  (expires_at w < t3)%Q \/ (expires_at w < t4)%Q ->
  fst (whisper_callback_handler e t1 t2 t3 t4 id cb st)
  = Answer NNotFound true
    :: (if raised (cb_answer cb NNotFound true)
        then [Answer NError true] else [])
  /\ cache_get id
       (whispers_cache (snd (whisper_callback_handler e t1 t2 t3 t4 id cb st)))
     = None.
Proof.
  intros Hb Hd Hopen Hg Hlate.
  pose proof (get_expired t3 t4 id _ w Hd Hg Hlate) as Hn.
  rewrite (handler_with_bot e b) by exact Hb. cbv zeta.
  unfold gate_open in Hopen. rewrite Hopen, Hn. simpl negb. cbv iota.
  cbn [fst snd whispers_cache]. split; [apply on_error_answer|].
  now apply get_none_evicts.
Qed.

Lemma reveal_expired_witness :
  let w := mkWhisper 7 (Some 9) (lit "bob") (lit "hi") 0 (0 + TTL)%Q in
  let st := mkState [(lit "a", w)] ∅ in
  let r := whisper_callback_handler env_plain 10801 10801 10801 10801
             (lit "a") (mkCallback 9 None None) st in
  fst r = [Answer NNotFound true]
  /\ cache_get (lit "a") (whispers_cache (snd r)) = None.
Proof.
  intros w st r.
  apply (reveal_expired env_plain bot_plain st (lit "a") w
           (mkCallback 9 None None) 10801 10801 10801 10801 eq_refl).
  - repeat constructor. simpl. tauto.
  - reflexivity.
  - reflexivity.
  - left. reflexivity.
Defined.

(** * Where the code departs from its description *)

(** C3 (code bug): during the last second of the window the denied call
    returns 0 remaining seconds: [int()] at line 223 truncates, where the
    ceiling of the remaining time is 1, so line 512 asks the refused user
    to wait 0 seconds. *)
Theorem C3_wait_zero (uid : Z) (cd : gmap Z Q) (now t_sweep last : Q) :
  cd !! uid = Some last ->
  (4 < now - last)%Q -> (now - last < 5)%Q ->
  check_view_cooldown now t_sweep uid cd = ((false, 0), cd)
  /\ Qceiling (5 - (now - last)) = 1.
Proof.
  intros Hl H4 H5. rewrite (cooldown_deny uid cd now t_sweep last Hl H5).
  set (x := (5 - (now - last))%Q).
  assert (Hx : (0 < x)%Q /\ (x < 1)%Q) by (subst x; split; lra).
  destruct Hx as [Hx0 Hx1]. split.
  - rewrite py_int_floor by lra.
    destruct (Qfloor_bounds x) as [Hf1 Hf2].
    assert (Hr : 0 <= Qfloor x < 1).
    { apply inject_Z_range.
      - change (inject_Z 0) with 0%Q. lra.
      - change (inject_Z 1) with 1%Q. lra. }
    repeat f_equal. lia.
  - unfold Qceiling. destruct (Qfloor_bounds (- x)) as [Hf1 Hf2].
    assert (Hr : -1 <= Qfloor (- x) < 0).
    { apply inject_Z_range.
      - change (inject_Z (-1)) with (-1)%Q. lra.
      - change (inject_Z 0) with 0%Q. lra. }
    lia.
Qed.

Lemma C3_wait_zero_witness :
  let cd : gmap Z Q := {[ 7 := 0%Q ]} in
  check_view_cooldown (9 # 2) (9 # 2) 7 cd = ((false, 0), cd)
  /\ Qceiling (5 - ((9 # 2) - 0)) = 1.
Proof.
  intros cd. apply (C3_wait_zero 7 cd (9 # 2) (9 # 2) 0%Q); reflexivity.
Defined.

(** C7 (code bug): at the instant [now = expires_at] the whisper has not
    expired for the sweep (line 32) and for the read (line 203), which
    returns it, but the listing drops it (line 179 tests [<=]): the
    listing misses a non-expired whisper of the user. *)
Theorem C7_boundary_not_listed (id : str) (w : whisper) (c : cache)
  (uid : Z) (uname : option str) (now : Q) :
  dict_ok c ->
  cache_get id c = Some w ->
  recipient_id w = Some uid ->
  (expires_at w == now)%Q ->
  fst (get_whisper_by_id now now id c) = Some w
  /\ cache_get id (snd (_cleanup_expired_whispers now c)) = Some w
  /\ forall w', ~ In (id, w') (fst (get_whispers_for_user now now uid uname c)).
Proof.
  intros Hd Hg Hr He.
  assert (Hle : (now <= expires_at w)%Q) by lra.
  split; [now rewrite (get_live now now id c w Hg Hle Hle)|]. split.
  - apply cache_get_filter_keep; [exact Hg|].
    simpl. now apply negb_true_iff, flt_false.
  - intros w' Hin. apply listing_In in Hin as [Hin Hl]; [|lra].
    assert (w' = w) as ->
      by (apply (dict_ok_unique id w' w c Hd Hin); now apply cache_get_In).
    unfold listed in Hl. cbn [snd] in Hl.
    apply andb_true_iff in Hl as [Hl _]. apply flt_true in Hl. lra.
Qed.

Lemma C7_boundary_not_listed_witness :
  let w := mkWhisper 7 (Some 9) (lit "bob") (lit "hi") 0 10800 in
  let c := [(lit "a", w)] in
  fst (get_whisper_by_id 10800 10800 (lit "a") c) = Some w
  /\ fst (get_whispers_for_user 10800 10800 9 None c) = [].
Proof.
  intros w c.
  destruct (C7_boundary_not_listed (lit "a") w c 9 None 10800)
    as (Hget & _ & Hlist); try reflexivity.
  - repeat constructor. simpl. tauto.
  - split; [exact Hget | reflexivity].
Defined.
